(** * KV Lie Detector: a shallow embedding of [app.py]

    The Flask application keeps one dictionary, [SESSIONS], keyed by the
    caller's address, and serves two JSON routes: [GET /next]
    ([next_question]) and [POST /answer] ([handle_answer]).  The verdict of
    every answer comes from [ask_groq], which posts to a remote completion
    endpoint and falls back on [random.choice] when the [try] block raises.

    Python values are embedded as follows.
    - [str] is a list of code points ([pystr]); literals are written as in the
      source and decoded from UTF-8 by [u].
    - [int] is [Z]; [float] is the kernel's binary64 [PrimFloat.float].
    - a parsed JSON document (and a [jsonify] argument) is a [json] tree, a
      [dict] with string keys being an association list in insertion order.
    - an exception that leaves a function is the [Raise] case of [result].
    - [SESSIONS] is a [gmap] from addresses to [session] records; the handlers
      take the dictionary and return the updated one.
    - what the outside world decides during one request (the outcome of
      [requests.post], the numbers the [random] module draws) is the
      [outside] argument of the handlers; what the request does to the
      outside world (the outbound call, the line printed) is its [event] list.

    Requests are served one after the other, and [print] succeeds. *)

From Stdlib Require Import ZArith NArith Ascii String.
From Stdlib Require PrimFloat FloatOps SpecFloat Uint63.
From stdpp Require Import base option list gmap strings.

#[local] Set Warnings "-register-all".
Local Open Scope Z_scope.

(* ===================================================================== *)
(** ** Python strings *)
(* ===================================================================== *)

Module Py.

(** A [str]: the sequence of its code points. *)
Definition pystr := list N.

(** [u "text"] is the [str] whose UTF-8 encoding is the bytes of ["text"].
    Only used to write the literals of the source. *)
Fixpoint utf8_decode (bs : list N) : pystr :=
  match bs with
  | [] => []
  | b0 :: r0 =>
      if (b0 <? 128)%N then b0 :: utf8_decode r0
      else if (b0 <? 224)%N then
        match r0 with
        | b1 :: r1 => ((b0 mod 32) * 64 + b1 mod 64)%N :: utf8_decode r1
        | _ => []
        end
      else if (b0 <? 240)%N then
        match r0 with
        | b1 :: b2 :: r2 =>
            ((b0 mod 16) * 4096 + (b1 mod 64) * 64 + b2 mod 64)%N :: utf8_decode r2
        | _ => []
        end
      else
        match r0 with
        | b1 :: b2 :: b3 :: r3 =>
            ((b0 mod 8) * 262144 + (b1 mod 64) * 4096 + (b2 mod 64) * 64 + b3 mod 64)%N
              :: utf8_decode r3
        | _ => []
        end
  end.

Fixpoint bytes_of (s : string) : list N :=
  match s with
  | EmptyString => []
  | String a r => N_of_ascii a :: bytes_of r
  end.

Definition u (s : string) : pystr := utf8_decode (bytes_of s).

(** [Py_UNICODE_ISSPACE]: the code points [str.strip()] removes. *)
Definition isspace (c : N) : bool :=
  ((9 <=? c) && (c <=? 13) || (28 <=? c) && (c <=? 32)
   || (c =? 133) || (c =? 160) || (c =? 5760)
   || (8192 <=? c) && (c <=? 8202)
   || (c =? 8232) || (c =? 8233) || (c =? 8239) || (c =? 8287) || (c =? 12288))%N.

Fixpoint lstrip (s : pystr) : pystr :=
  match s with
  | [] => []
  | c :: r => if isspace c then lstrip r else s
  end.

Definition rstrip (s : pystr) : pystr := reverse (lstrip (reverse s)).

(** [s.strip()] *)
Definition strip (s : pystr) : pystr := rstrip (lstrip s).

Fixpoint startswith (s p : pystr) : bool :=
  match p, s with
  | [], _ => true
  | _ :: _, [] => false
  | a :: p', b :: s' => (a =? b)%N && startswith s' p'
  end.

(** [sub in s] on two strings: [sub] occurs in [s] as a contiguous run. *)
Fixpoint contains (s sub : pystr) : bool :=
  match s with
  | [] => startswith [] sub
  | _ :: r => startswith s sub || contains r sub
  end.

Definition str_eqb (a b : pystr) : bool :=
  bool_decide (a = b).

(* --------------------------------------------------------------------- *)
(** ** Exceptions and fallible evaluation *)

(** The exception classes the program can meet.  All derive from
    [Exception]. *)
Inductive exn :=
  | ValueError | IndexError | KeyError | TypeError | AttributeError
  | JSONDecodeError            (* [res.json()] on a body that is not JSON *)
  | ConnectionError | Timeout  (* raised by [requests.post] *)
  | HTTPError                  (* raised by [res.raise_for_status()] *)
  | BadRequest.                (* werkzeug, from [request.get_json] *)

Inductive result (A : Type) :=
  | Ok (a : A)
  | Raise (e : exn).
Arguments Ok {A} a.
Arguments Raise {A} e.

Definition bind {A B} (m : result A) (k : A -> result B) : result B :=
  match m with
  | Ok a => k a
  | Raise e => Raise e
  end.

Declare Scope py_scope.
Delimit Scope py_scope with py.
Notation "x <- m ;; k" := (bind m (fun x => k))
  (at level 100, m at next level, right associativity) : py_scope.

(* --------------------------------------------------------------------- *)
(** ** Sequences *)

Definition len {A} (l : list A) : Z := Z.of_nat (length l).

(** [l[i]] on a list: a negative index counts from the end, an index out of
    range raises [IndexError]. *)
Definition list_getitem {A} (l : list A) (i : Z) : result A :=
  let i' := if i <? 0 then i + len l else i in
  if (i' <? 0) || (len l <=? i') then Raise IndexError
  else match l !! Z.to_nat i' with
       | Some x => Ok x
       | None => Raise IndexError
       end.

(* --------------------------------------------------------------------- *)
(** ** JSON documents *)

Inductive json :=
  | JNull
  | JBool (b : bool)
  | JInt (n : Z)
  | JFloat (x : PrimFloat.float)
  | JStr (s : pystr)
  | JArr (items : list json)
  | JObj (fields : list (pystr * json)).

(** [d.get(key)] on the association list of a [dict]. *)
Fixpoint assoc {V} (key : pystr) (fields : list (pystr * V)) : option V :=
  match fields with
  | [] => None
  | (k, v) :: r => if str_eqb k key then Some v else assoc key r
  end.

(** A subscript is a string or an integer. *)
Inductive subscript :=
  | SStr (s : pystr)
  | SInt (i : Z).

(** [v[k]] on a value that [json.loads] produced. *)
Definition getitem (v : json) (k : subscript) : result json :=
  match v, k with
  | JObj fields, SStr s =>
      match assoc s fields with
      | Some x => Ok x
      | None => Raise KeyError
      end
  | JObj _, SInt _ => Raise KeyError
  | JArr items, SInt i => list_getitem items i
  | JArr _, SStr _ => Raise TypeError
  | JStr s, SInt i => (c <- list_getitem s i ;; Ok (JStr [c]))%py
  | JStr _, SStr _ => Raise TypeError
  | _, _ => Raise TypeError
  end.

(** [v.strip()]: only a [str] has the method. *)
Definition strip_method (v : json) : result pystr :=
  match v with
  | JStr s => Ok (strip s)
  | _ => Raise AttributeError
  end.

(** [v.get(key, default)]: only a [dict] has the method. *)
Definition get_method (v : json) (key : pystr) (default : json) : result json :=
  match v with
  | JObj fields => Ok (from_option id default (assoc key fields))
  | _ => Raise AttributeError
  end.

(* --------------------------------------------------------------------- *)
(** ** Floating point *)

(** [float(n)] for [0 <= n < 2^53], where the conversion is exact (the
    integers of the program are lengths of lists and small constants). *)
Definition float_of_int (n : Z) : PrimFloat.float :=
  PrimFloat.of_uint63 (Uint63.of_Z n).

(** [a / b] on two [int]s: the correctly rounded quotient. *)
Definition truediv (a b : Z) : PrimFloat.float :=
  PrimFloat.div (float_of_int a) (float_of_int b).

(** The integer nearest to [p / q] ([0 < q]), ties to the even one. *)
Definition round_half_even (p q : Z) : Z :=
  let fl := p / q in
  let r := p mod q in
  if 2 * r <? q then fl
  else if q <? 2 * r then fl + 1
  else if Z.even fl then fl else fl + 1.

(** [round(x, 1)] on a [float]: the exact value of [x] is rounded to one
    decimal (ties to even) and the decimal is converted back to the nearest
    [float].  A value without fractional bits is its own rounding.  (Exact
    below [2^49] in magnitude; the program rounds percentages.) *)
Definition round1 (x : PrimFloat.float) : PrimFloat.float :=
  match FloatOps.Prim2SF x with
  | SpecFloat.S754_finite sign m e =>
      if 0 <=? e then x
      else
        let tenths := round_half_even (10 * Z.pos m) (2 ^ (- e)) in
        let r := PrimFloat.div (float_of_int tenths) (float_of_int 10) in
        if sign then PrimFloat.opp r else r
  | _ => x
  end.

End Py.
Import Py.

(* ===================================================================== *)
(** ** The application: constants *)
(* ===================================================================== *)

(** The question pool. *)
Definition QUESTIONS : list pystr := [
    u "Did you really wake up on time today?";
    u "Have you lied to someone recently?";
    u "Do you always tell the truth?";
    u "Are you hiding anything right now?";
    u "Do you think people can tell when you lie?";
    u "Would you say you’re confident in your honesty?";
    u "Have you ever broken a promise?";
    u "Do you trust AI to judge your truthfulness?";
    u "Have you ever cheated on a test?";
    u "Do you sometimes exaggerate?";
    u "Have you lied to a friend before?";
    u "Do you hide your feelings often?";
    u "Have you ever stolen something?";
    u "Do you always keep secrets?";
    u "Have you ever lied about your age?";
    u "Do you tell white lies often?";
    u "Have you ever blamed someone else unfairly?";
    u "Do you hide mistakes at work/school?";
    u "Have you ever lied to avoid punishment?";
    u "Do you sometimes fake interest in conversations?";
    u "Do you lie in online profiles?";
    u "Have you ever lied in a relationship?";
    u "Do you sometimes pretend to know things you don't?";
    u "Have you lied to protect someone's feelings?";
    u "Do you tell different stories to different people?";
    u "Have you ever lied to get out of trouble?";
    u "Do you exaggerate your achievements?";
    u "Have you lied to get attention?";
    u "Do you lie about small things often?";
    u "Have you ever faked being sick?"
  ].

(** Questions per session. *)
Definition SESSION_QUESTIONS : Z := 30.

(** The three verdicts, as the literals of [ask_groq] and of the [counts]
    dictionary of [handle_answer] spell them. *)
Definition TRUTHFUL : pystr := u "Truthful ✅".
Definition SUSPICIOUS : pystr := u "Suspicious 😶".
Definition LYING : pystr := u "Lying 🤥".

Definition VERDICTS : list pystr := [TRUTHFUL; SUSPICIOUS; LYING].

(* ===================================================================== *)
(** ** The outside world *)
(* ===================================================================== *)

(** What [requests.post] does: it raises (no connection, time-out after the
    20 seconds allowed), or it returns a response with a status code and a
    body, which parses as JSON or does not. *)
Inductive post_outcome :=
  | PostRaises (e : exn)
  | PostReturns (status_code : Z) (text : option json).

(** What one request meets: the behaviour of the remote endpoint and the
    raw numbers the [random] module draws, in the order it draws them. *)
Record outside := {
  post : post_outcome;
  rand : nat -> nat
}.

(** What one request does to the outside world. *)
Inductive event :=
  | Requests_post (question answer : pystr)  (* the call to the endpoint *)
  | Print_error (e : exn).                   (* the line on standard output *)

(* --------------------------------------------------------------------- *)
(** ** The [random] module *)

(** [_randbelow(n)]: the [i]th number drawn, brought into [0, n). *)
Definition randbelow (rand : nat -> nat) (i n : nat) : nat :=
  (rand i mod n)%nat.

(** [random.choice(seq)] *)
Definition choice {A} (rand : nat -> nat) (seq : list A) : result A :=
  if bool_decide (length seq = 0%nat) then Raise IndexError
  else list_getitem seq (Z.of_nat (randbelow rand 0 (length seq))).

(** The loop of [random.sample] over a copy of the population (the branch
    CPython takes for a population this small): the [i]th draw picks a
    position [j] among the [n - i] entries still in play, and the last of
    them is moved to [j]. *)
Fixpoint sample_loop {A} (rand : nat -> nat) (pool : list A) (n i k : nat) : list A :=
  match k with
  | O => []
  | S k' =>
      let j := randbelow rand i (n - i) in
      match pool !! j, pool !! (n - i - 1)%nat with
      | Some x, Some y => x :: sample_loop rand (<[j := y]> pool) n (S i) k'
      | _, _ => []
      end
  end.

(** [random.sample(population, k)] *)
Definition sample {A} (rand : nat -> nat) (population : list A) (k : Z) : result (list A) :=
  let n := len population in
  if (k <? 0) || (n <? k) then Raise ValueError
  else Ok (sample_loop rand population (length population) 0 (Z.to_nat k)).

(* ===================================================================== *)
(** ** [ask_groq] *)
(* ===================================================================== *)

(** [res.raise_for_status()]: a 4xx or 5xx status raises. *)
Definition raise_for_status (status_code : Z) : result unit :=
  if (400 <=? status_code) && (status_code <? 600) then Raise HTTPError else Ok tt.

(** [res.json()] *)
Definition res_json (text : option json) : result json :=
  match text with
  | Some data => Ok data
  | None => Raise JSONDecodeError
  end.

(** Line 74: [data["choices"][0]["message"]["content"].strip()]. *)
Definition completion_text (data : json) : result pystr :=
  (choices <- getitem data (SStr (u "choices")) ;;
   first <- getitem choices (SInt 0) ;;
   message <- getitem first (SStr (u "message")) ;;
   content <- getitem message (SStr (u "content")) ;;
   strip_method content)%py.

(** The body of the [try]. *)
Definition ask_groq_try (p : post_outcome) : result pystr :=
  match p with
  | PostRaises e => Raise e
  | PostReturns status_code text =>
      (_ <- raise_for_status status_code ;;
       data <- res_json text ;;
       completion_text data)%py
  end.

(** Send question and answer to the endpoint and return the verdict;
    [except Exception] prints the error and answers with a random verdict. *)
Definition ask_groq (o : outside) (question answer : pystr)
  : result pystr * list event :=
  match ask_groq_try (post o) with
  | Ok verdict => (Ok verdict, [Requests_post question answer])
  | Raise e =>
      (choice (rand o) [u "Truthful ✅"; u "Suspicious 😶"; u "Lying 🤥"],
       [Requests_post question answer; Print_error e])
  end.

(* ===================================================================== *)
(** ** Sessions and the two routes *)
(* ===================================================================== *)

(** One entry of [session["answers"]]. *)
Record answer_record := {
  a_question : pystr;
  a_answer : pystr;
  a_verdict : pystr
}.

(** One value of [SESSIONS]. *)
Record session := {
  questions : list pystr;
  answers : list answer_record;
  index : Z
}.

(** What the HTTP layer gets back from a view function: the pair of
    [jsonify(...)] and a status ([200] when the source gives none), or an
    exception.  Flask answers an exception with status 500, except
    [BadRequest], which it answers with werkzeug's own 400 page. *)
Inductive reply :=
  | Returned (body : json) (status : Z)
  | Raised (e : exn).

(** Lines 88 to 96: the session of [session_id], created on first sight. *)
Definition get_or_create (o : outside) (session_id : string)
    (SESSIONS : gmap string session) : result (session * gmap string session) :=
  match SESSIONS !! session_id with
  | Some session => Ok (session, SESSIONS)
  | None =>
      (selected_questions <- sample (rand o) QUESTIONS SESSION_QUESTIONS ;;
       let session :=
         {| questions := selected_questions; answers := []; index := 0 |} in
       Ok (session, <[session_id := session]> SESSIONS))%py
  end.

(** [GET /next]: serve the next question for the session. *)
Definition next_question (o : outside) (remote_addr : string)
    (SESSIONS : gmap string session) : reply * gmap string session :=
  let session_id := remote_addr in
  match get_or_create o session_id SESSIONS with
  | Raise e => (Raised e, SESSIONS)
  | Ok (session, SESSIONS) =>
      let idx := index session in
      if len (questions session) <=? idx then
        (Returned (JObj [(u "done", JBool true)]) 200, SESSIONS)
      else
        match list_getitem (questions session) idx with
        | Raise e => (Raised e, SESSIONS)
        | Ok question =>
            (Returned (JObj [(u "question", JStr question);
                             (u "index", JInt (idx + 1));
                             (u "total", JInt (len (questions session)));
                             (u "done", JBool false)]) 200,
             SESSIONS)
        end
  end.

(** [counts[key] += n] *)
Definition dict_add (key : pystr) (n : Z) (counts : list (pystr * Z))
  : list (pystr * Z) :=
  map (fun kv => if str_eqb kv.1 key then (kv.1, kv.2 + n) else kv) counts.

(** Lines 134 to 138: for every recorded answer, every key of [counts]
    that occurs in the verdict is incremented. *)
Definition count_verdicts (answers : list answer_record) : list (pystr * Z) :=
  foldl
    (fun counts a =>
       foldl
         (fun counts key =>
            if contains (a_verdict a) key then dict_add key 1 counts else counts)
         counts (map fst counts))
    [(u "Truthful ✅", 0); (u "Suspicious 😶", 0); (u "Lying 🤥", 0)]
    answers.

(** [sum(counts.values())] *)
Definition sum_values (counts : list (pystr * Z)) : Z :=
  foldl Z.add 0 (map snd counts).

(** Line 140. *)
Definition honesty_percent (counts : list (pystr * Z)) : json :=
  let total := sum_values counts in
  if 0 <? total then
    JFloat (round1 (PrimFloat.mul
                      (truediv (default 0 (assoc (u "Truthful ✅") counts)) total)
                      (float_of_int 100)))
  else JInt 0.

(** Lines 134 to 144: the final summary. *)
Definition summary (answers : list answer_record) : json :=
  let counts := count_verdicts answers in
  JObj [(u "counts", JObj (map (fun kv => (kv.1, JInt kv.2)) counts));
        (u "honesty_percent", honesty_percent counts)].

(** [request.get_json(force=True)]: the body parsed, whatever its content
    type; a body that does not parse raises [BadRequest]. *)
Definition get_json (body : option json) : result json :=
  match body with
  | Some data => Ok data
  | None => Raise BadRequest
  end.

(** Lines 118 and 119: the [answer] field of the body (the empty string
    when the body has none), stripped. *)
Definition posted_answer (body : option json) : result pystr :=
  (data <- get_json body ;;
   a <- get_method data (u "answer") (JStr (u "")) ;;
   strip_method a)%py.

(** [POST /answer]: receive the answer, get the verdict, update the session,
    return the progress. *)
Definition handle_answer (o : outside) (remote_addr : string) (body : option json)
    (SESSIONS : gmap string session)
  : reply * gmap string session * list event :=
  let session_id := remote_addr in
  match SESSIONS !! session_id with
  | None =>
      (Returned (JObj [(u "error", JStr (u "Session not started"))]) 400,
       SESSIONS, [])
  | Some session =>
      let idx := index session in
      match posted_answer body with
      | Raise e => (Raised e, SESSIONS, [])
      | Ok answer =>
          if bool_decide (answer = []) then
            (Returned (JObj [(u "error", JStr (u "No answer provided!"))]) 400,
             SESSIONS, [])
          else
            match list_getitem (questions session) idx with
            | Raise e => (Raised e, SESSIONS, [])
            | Ok question =>
                match ask_groq o question answer with
                | (Raise e, events) => (Raised e, SESSIONS, events)
                | (Ok verdict, events) =>
                    let session :=
                      {| questions := questions session;
                         answers := answers session ++
                           [{| a_question := question;
                               a_answer := answer;
                               a_verdict := verdict |}];
                         index := index session + 1 |} in
                    let done := len (questions session) <=? index session in
                    let progress := index session in
                    let final_summary :=
                      if done then summary (answers session) else JNull in
                    (Returned (JObj [(u "verdict", JStr verdict);
                                     (u "progress", JInt progress);
                                     (u "done", JBool done);
                                     (u "summary", final_summary)]) 200,
                     <[session_id := session]> SESSIONS, events)
                end
            end
      end
  end.

(* --------------------------------------------------------------------- *)
(** ** The server as a transition system *)

Inductive request :=
  | GET_next (remote_addr : string)
  | POST_answer (remote_addr : string) (body : option json).

Definition serve (o : outside) (r : request) (SESSIONS : gmap string session)
  : reply * gmap string session * list event :=
  match r with
  | GET_next remote_addr =>
      let '(rep, SESSIONS) := next_question o remote_addr SESSIONS in
      (rep, SESSIONS, [])
  | POST_answer remote_addr body => handle_answer o remote_addr body SESSIONS
  end.

(** The dictionary a request leaves behind. *)
Definition store_after (o : outside) (r : request) (SESSIONS : gmap string session)
  : gmap string session :=
  (serve o r SESSIONS).1.2.

(** The dictionaries the process can hold: empty at start-up, then whatever
    the requests served one after the other leave. *)
Inductive reachable : gmap string session -> Prop :=
  | reachable_start : reachable ∅
  | reachable_serve o r SESSIONS :
      reachable SESSIONS -> reachable (store_after o r SESSIONS).

(** The requests of a list served in order, from a given dictionary. *)
Definition run (trace : list (outside * request)) (SESSIONS : gmap string session)
  : gmap string session :=
  foldl (fun S step => store_after step.1 step.2 S) SESSIONS trace.

(* --------------------------------------------------------------------- *)
(** ** Sample inputs *)

(** A client address. *)
Definition client : string := "10.0.0.1".

(** The endpoint times out; the [random] module draws 0, 1, 2, ... *)
Definition endpoint_down : outside :=
  {| post := PostRaises Timeout; rand := fun i => i |}.

(** A completion response whose message is [content]. *)
Definition completion (content : pystr) : json :=
  JObj [(u "choices",
         JArr [JObj [(u "message", JObj [(u "content", JStr content)])]])].

(** The endpoint answers [content] with the given status. *)
Definition endpoint_says (status_code : Z) (content : pystr) : outside :=
  {| post := PostReturns status_code (Some (completion content));
     rand := fun _ => 0%nat |}.

(** The body [{"answer": text}]. *)
Definition answer_body (text : pystr) : option json :=
  Some (JObj [(u "answer", JStr text)]).

(** The dictionary after the first [GET /next] of [client]. *)
Definition fresh_store : gmap string session :=
  store_after endpoint_down (GET_next client) ∅.

(** The dictionary once [client] has answered every question, the endpoint
    being down throughout. *)
Definition completed_store : gmap string session :=
  run (replicate 30 (endpoint_down, POST_answer client (answer_body (u "yes"))))
      fresh_store.

(** [client] has answered 29 questions; the endpoint said ["Truthful ✅"]
    14 times, then ["Honest"] 15 times. *)
Definition unlabelled_store : gmap string session :=
  run (replicate 14 (endpoint_says 200 (u "Truthful ✅"),
                     POST_answer client (answer_body (u "yes"))) ++
       replicate 15 (endpoint_says 200 (u "Honest"),
                     POST_answer client (answer_body (u "yes"))))
      fresh_store.

(* --------------------------------------------------------------------- *)
(** ** Vocabulary of the properties *)

(** The session a first [GET /next] creates from the questions drawn. *)
Definition new_session (selected_questions : list pystr) : session :=
  {| questions := selected_questions; answers := []; index := 0 |}.

(** The session after one more answer is recorded. *)
Definition record_answer (s : session) (a : answer_record) : session :=
  {| questions := questions s; answers := answers s ++ [a]; index := index s + 1 |}.

(** The cursor counts the recorded answers and stays within the questions. *)
Definition session_ok (s : session) : Prop :=
  len (answers s) = index s /\ 0 <= index s <= len (questions s).

(** Every session of the dictionary is well formed and asks the pool's
    questions in some order. *)
Definition store_ok (SESSIONS : gmap string session) : Prop :=
  forall session_id s,
    SESSIONS !! session_id = Some s -> session_ok s /\ questions s ≡ₚ QUESTIONS.

(** The failures of the classifier call as the specification lists them:
    a network error or a time-out (the call raises), a status that is not
    2xx, a body that is not JSON or has no text where a completion has it. *)
Definition spec_failure (p : post_outcome) : Prop :=
  match p with
  | PostRaises _ => True
  | PostReturns status_code text =>
      ~ (200 <= status_code < 300) \/
      match text with
      | None => True
      | Some data => exists e, completion_text data = Raise e
      end
  end.

(** The failures as the [try] of [ask_groq] has them: the call raises, the
    status is one [raise_for_status] rejects (4xx or 5xx), the body is not
    JSON or has no text where a completion has it. *)
Definition failed (p : post_outcome) : Prop :=
  match p with
  | PostRaises _ => True
  | PostReturns status_code text =>
      400 <= status_code < 600 \/
      match text with
      | None => True
      | Some data => exists e, completion_text data = Raise e
      end
  end.

(** The number of recorded verdicts that contain [label]. *)
Definition mentions (label : pystr) (recorded : list answer_record) : Z :=
  len (filter (fun a => contains (a_verdict a) label) recorded).

(** The verdict contains exactly one of the three labels. *)
Definition one_label (a : answer_record) : Prop :=
  (if contains (a_verdict a) TRUTHFUL then 1 else 0) +
  (if contains (a_verdict a) SUSPICIOUS then 1 else 0) +
  (if contains (a_verdict a) LYING then 1 else 0) = 1.

(** The field [key] of a JSON object, and of the body of a reply. *)
Definition json_field (key : pystr) (v : json) : option json :=
  match v with
  | JObj fields => assoc key fields
  | _ => None
  end.

Definition reply_field (key : pystr) (rep : reply) : option json :=
  match rep with
  | Returned body _ => json_field key body
  | Raised _ => None
  end.

(** [summary.honesty_percent] of a reply. *)
Definition reply_honesty_percent (rep : reply) : option json :=
  match reply_field (u "summary") rep with
  | Some summary => json_field (u "honesty_percent") summary
  | None => None
  end.

(** The integers of [summary.counts] of a reply, in the order of the keys. *)
Definition reply_counts (rep : reply) : option (list Z) :=
  match reply_field (u "summary") rep with
  | Some summary =>
      match json_field (u "counts") summary with
      | Some (JObj fields) =>
          Some (map (fun kv => match kv.2 with JInt n => n | _ => 0 end) fields)
      | _ => None
      end
  | None => None
  end.

(** The percentage in the specification's words:
    [round(100 * truthful_count / total_answered, 1)], [total_answered]
    being the number of recorded answers, and [0] when there is none. *)
Definition spec_honesty_percent (recorded : list answer_record) : json :=
  let truthful_count := mentions TRUTHFUL recorded in
  let total_answered := len recorded in
  if total_answered =? 0 then JInt 0
  else JFloat (round1 (truediv (100 * truthful_count) total_answered)).

(** The percentage of line 140 from the three counts. *)
Definition code_honesty_percent (truthful suspicious lying : Z) : json :=
  let total := truthful + suspicious + lying in
  if 0 <? total then
    JFloat (round1 (PrimFloat.mul (truediv truthful total) (float_of_int 100)))
  else JInt 0.

(* --------------------------------------------------------------------- *)
(** ** Vocabulary of the further properties *)

(** A string that neither starts nor ends with white space. *)
Definition trimmed (s : pystr) : Prop :=
  (forall c, head s = Some c -> isspace c = false) /\
  (forall c, last s = Some c -> isspace c = false).

(** The address a request comes from. *)
Definition request_addr (r : request) : string :=
  match r with
  | GET_next remote_addr => remote_addr
  | POST_answer remote_addr _ => remote_addr
  end.

(** The recorded answers follow the questions: the [i]th record holds the
    [i]th question of the session and an answer that is not empty and has
    no white space around it. *)
Definition answers_ok (s : session) : Prop :=
  forall i r,
    answers s !! i = Some r ->
    questions s !! i = Some (a_question r) /\
    a_answer r <> [] /\ trimmed (a_answer r).

(** A second client address. *)
Definition other_client : string := "10.0.0.2".

(** [client] has answered three questions; [other_client] has asked for
    its first question. *)
Definition two_clients_store : gmap string session :=
  run (replicate 3 (endpoint_down, POST_answer client (answer_body (u " yes "))) ++
       [(endpoint_says 200 (u "maybe"), GET_next other_client)])
      fresh_store.

(** A percentage: the integer 0, or a [float] between 0 and 100. *)
Definition percent_ok (hp : json) : Prop :=
  hp = JInt 0 \/
  exists x,
    hp = JFloat x /\
    PrimFloat.leb (float_of_int 0) x = true /\
    PrimFloat.leb x (float_of_int 100) = true.

(* ===================================================================== *)
(** ** Strings: stripping and the labels *)
(* ===================================================================== *)

Lemma lstrip_whitespace (s : pystr) :
  forallb isspace s = true -> lstrip s = [].
Proof.
  induction s as [|c r IH]; simpl; [done|].
  intros [Hc Hr]%andb_prop. rewrite Hc. by apply IH.
Qed.

Lemma strip_whitespace (s : pystr) :
  forallb isspace s = true -> strip s = [].
Proof.
  intros H. unfold strip. by rewrite (lstrip_whitespace s H).
Qed.

Lemma lstrip_nil_inv (s : pystr) :
  lstrip s = [] -> forallb isspace s = true.
Proof.
  induction s as [|c r IH]; simpl; [done|].
  destruct (isspace c); [exact IH | discriminate].
Qed.

(** Nothing but white space strips to the empty string. *)
Lemma strip_nil_iff (s : pystr) :
  strip s = [] <-> forallb isspace s = true.
Proof.
  split; [|apply strip_whitespace].
  unfold strip, rstrip. intros H.
  apply (f_equal reverse) in H. rewrite reverse_involutive in H.
  change (reverse []) with (@nil N) in H.
  apply lstrip_nil_inv in H.
  assert (Hsuf : forall t, forallb isspace (reverse (lstrip t)) = true ->
                           forallb isspace t = true).
  { clear. induction t as [|c r IH]; simpl; [done|].
    destruct (isspace c) eqn:Hc; [exact IH|].
    rewrite reverse_cons, forallb_app. simpl. rewrite Hc.
    rewrite andb_false_r. discriminate. }
  by apply Hsuf.
Qed.

(* ===================================================================== *)
(** ** [POST /answer]: the two refusals *)
(* ===================================================================== *)

(** C9.  For a client address that has no session, [handle_answer] returns
    the body [{"error": "Session not started"}] with status 400, whatever
    the request body is (an empty answer or a body that is not JSON included:
    the membership test comes first), leaves [SESSIONS] as it was and does
    nothing to the outside world. *)
Theorem handle_answer_session_not_started
    (o : outside) (remote_addr : string) (body : option json)
    (SESSIONS : gmap string session) :
  SESSIONS !! remote_addr = None ->
  handle_answer o remote_addr body SESSIONS =
    (Returned (JObj [(u "error", JStr (u "Session not started"))]) 400,
     SESSIONS, []).
Proof.
  intros Hnone. unfold handle_answer. by rewrite Hnone.
Qed.

Lemma handle_answer_session_not_started_witness :
  handle_answer endpoint_down client (answer_body (u "  ")) ∅ =
    (Returned (JObj [(u "error", JStr (u "Session not started"))]) 400, ∅, [])
  /\ handle_answer endpoint_down client None ∅ =
    (Returned (JObj [(u "error", JStr (u "Session not started"))]) 400, ∅, []).
Proof.
  split; apply handle_answer_session_not_started; reflexivity.
Defined.

(** C5.  For a client that has a session and a body whose [answer] is a
    string of white space only (the empty string and a missing field
    included), [handle_answer] returns [{"error": "No answer provided!"}]
    with status 400; [SESSIONS] is unchanged, so neither [index] nor
    [answers] moves, and no event occurs, so the endpoint is not called. *)
Theorem handle_answer_empty_answer
    (o : outside) (remote_addr : string) (data : json) (answer_text : pystr)
    (SESSIONS : gmap string session) (s : session) :
  SESSIONS !! remote_addr = Some s ->
  get_method data (u "answer") (JStr (u "")) = Ok (JStr answer_text) ->
  forallb isspace answer_text = true ->
  handle_answer o remote_addr (Some data) SESSIONS =
    (Returned (JObj [(u "error", JStr (u "No answer provided!"))]) 400,
     SESSIONS, []).
Proof.
  intros Hs Hget Hws. unfold handle_answer, posted_answer. rewrite Hs.
  simpl. rewrite Hget. simpl. by rewrite (strip_whitespace _ Hws).
Qed.

Lemma handle_answer_empty_answer_witness :
  handle_answer endpoint_down client (answer_body [32; 9; 160]%N) fresh_store =
    (Returned (JObj [(u "error", JStr (u "No answer provided!"))]) 400,
     fresh_store, []).
Proof.
  eapply handle_answer_empty_answer;
    [vm_compute; reflexivity | reflexivity | reflexivity].
Defined.

(* ===================================================================== *)
(** ** [random.sample] *)
(* ===================================================================== *)

Section Sample.
Context {A : Type}.
Implicit Types (pool : list A) (rand : nat -> nat).

Lemma randbelow_lt rand i n : (0 < n)%nat -> (randbelow rand i n < n)%nat.
Proof. intros Hn. unfold randbelow. apply Nat.mod_upper_bound. lia. Qed.

(** Overwriting position [j] with [y] trades the entry at [j] for [y]. *)
Lemma insert_trade pool j x y :
  pool !! j = Some x -> x :: <[j := y]> pool ≡ₚ y :: pool.
Proof.
  intros Hj.
  rewrite <- (take_drop_middle pool j x Hj) at 2.
  rewrite insert_take_drop by (by eapply lookup_lt_Some).
  rewrite <- !Permutation_middle. apply perm_swap.
Qed.

(** One round of the loop: the entry drawn, with the entries still in play
    afterwards, are the entries that were in play. *)
Lemma sample_round pool m j x y :
  (j < S m)%nat -> pool !! j = Some x -> pool !! m = Some y ->
  x :: take m (<[j := y]> pool) ≡ₚ take (S m) pool.
Proof.
  intros Hj Hx Hy. rewrite (take_S_r pool m y Hy).
  destruct (decide (j = m)) as [->|Hne].
  - rewrite list_insert_id by done.
    assert (x = y) as -> by congruence.
    by rewrite Permutation_cons_append.
  - rewrite take_insert_lt by lia.
    rewrite insert_trade; [by rewrite Permutation_cons_append|].
    rewrite lookup_take_lt by lia. done.
Qed.

Lemma sample_loop_length rand k : forall pool n i,
  length pool = n -> (i + k <= n)%nat ->
  length (sample_loop rand pool n i k) = k.
Proof.
  induction k as [|k IH]; intros pool n i Hlen Hk; simpl; [done|].
  pose proof (randbelow_lt rand i (n - i) ltac:(lia)) as Hj.
  destruct (lookup_lt_is_Some_2 pool (randbelow rand i (n - i)) ltac:(lia))
    as [x ->].
  destruct (lookup_lt_is_Some_2 pool (n - i - 1) ltac:(lia)) as [y ->].
  simpl. f_equal. apply IH; [by rewrite length_insert | lia].
Qed.

(** The draws are entries in play, each position taken at most once. *)
Lemma sample_loop_submseteq rand k : forall pool n i,
  length pool = n -> (i + k <= n)%nat ->
  sample_loop rand pool n i k ⊆+ take (n - i) pool.
Proof.
  induction k as [|k IH]; intros pool n i Hlen Hk; simpl.
  { apply submseteq_nil_l. }
  pose proof (randbelow_lt rand i (n - i) ltac:(lia)) as Hj.
  destruct (lookup_lt_is_Some_2 pool (randbelow rand i (n - i)) ltac:(lia))
    as [x Hx].
  destruct (lookup_lt_is_Some_2 pool (n - i - 1) ltac:(lia)) as [y Hy].
  rewrite Hx, Hy.
  replace (n - i)%nat with (S (n - i - 1)) at 2 by lia.
  rewrite <- (sample_round pool (n - i - 1) (randbelow rand i (n - i)) x y
                ltac:(lia) Hx Hy).
  apply submseteq_skip.
  replace (n - i - 1)%nat with (n - S i)%nat by lia.
  apply IH; [by rewrite length_insert | lia].
Qed.

(** [random.sample(population, k)] with [0 <= k <= len(population)] returns
    [k] entries of the population, no position taken twice. *)
Lemma sample_spec rand (population : list A) (k : Z) :
  0 <= k <= len population ->
  exists selected,
    sample rand population k = Ok selected /\
    len selected = k /\ selected ⊆+ population.
Proof.
  intros Hk. unfold sample, len in *.
  destruct (_ || _) eqn:Hguard.
  { apply orb_prop in Hguard as [?%Z.ltb_lt | ?%Z.ltb_lt]; lia. }
  eexists; split; [done|]. split.
  - rewrite sample_loop_length by lia. lia.
  - etrans; [apply sample_loop_submseteq; lia|].
    rewrite Nat.sub_0_r, firstn_all. done.
Qed.

(** A sample of the whole population is a rearrangement of it. *)
Lemma sample_all rand (population : list A) :
  exists selected,
    sample rand population (len population) = Ok selected /\
    selected ≡ₚ population.
Proof.
  destruct (sample_spec rand population (len population)) as (l & Hs & Hl & Hsub).
  { unfold len; lia. }
  exists l. split; [done|].
  apply submseteq_length_Permutation; [done|]. unfold len in Hl. lia.
Qed.
End Sample.

(* ===================================================================== *)
(** ** What one request does to [SESSIONS] *)
(* ===================================================================== *)

Lemma len_QUESTIONS : len QUESTIONS = SESSION_QUESTIONS.
Proof. reflexivity. Qed.

Lemma NoDup_QUESTIONS : NoDup QUESTIONS.
Proof. apply (bool_decide_unpack _). vm_compute. exact I. Qed.

Lemma list_getitem_Ok {A} (l : list A) (i : Z) (x : A) :
  0 <= i -> list_getitem l i = Ok x -> i < len l /\ l !! Z.to_nat i = Some x.
Proof.
  intros Hi. unfold list_getitem.
  destruct (i <? 0) eqn:Hneg; [apply Z.ltb_lt in Hneg; lia|].
  destruct (_ || _) eqn:Hguard; [discriminate|].
  apply orb_false_elim in Hguard as [_ Hlt%Z.leb_gt].
  destruct (l !! Z.to_nat i) eqn:Hl; [|discriminate].
  intros [= ->]. done.
Qed.

Lemma list_getitem_nat {A} (l : list A) (n : nat) (x : A) :
  l !! n = Some x -> list_getitem l (Z.of_nat n) = Ok x.
Proof.
  intros Hx. pose proof (lookup_lt_Some _ _ _ Hx) as Hlt.
  assert (Hneg : (Z.of_nat n <? 0) = false) by (apply Z.ltb_ge; lia).
  assert (Hin : (len l <=? Z.of_nat n) = false) by (apply Z.leb_gt; unfold len; lia).
  unfold list_getitem. cbv zeta. rewrite Hneg. cbv iota. rewrite Hneg, Hin. simpl.
  by rewrite Nat2Z.id, Hx.
Qed.

Lemma list_getitem_end {A} (l : list A) : list_getitem l (len l) = Raise IndexError.
Proof.
  assert (Hneg : (len l <? 0) = false) by (apply Z.ltb_ge; unfold len; lia).
  unfold list_getitem. cbv zeta. rewrite Hneg, Z.leb_refl, orb_true_r. done.
Qed.

(** A first [GET /next] draws a rearrangement of the whole pool. *)
Lemma get_or_create_new o session_id (SESSIONS : gmap string session) :
  SESSIONS !! session_id = None ->
  exists selected,
    get_or_create o session_id SESSIONS =
      Ok (new_session selected, <[session_id := new_session selected]> SESSIONS) /\
    selected ≡ₚ QUESTIONS.
Proof.
  intros Hnone. unfold get_or_create. rewrite Hnone.
  destruct (sample_all (rand o) QUESTIONS) as (selected & Hs & Hperm).
  rewrite len_QUESTIONS in Hs. rewrite Hs. by exists selected.
Qed.

Lemma get_or_create_old o session_id (SESSIONS : gmap string session) s :
  SESSIONS !! session_id = Some s ->
  get_or_create o session_id SESSIONS = Ok (s, SESSIONS).
Proof. intros Hs. unfold get_or_create. by rewrite Hs. Qed.

(** [next_question] leaves the dictionary alone, or adds a new session. *)
Lemma next_question_store o remote_addr (SESSIONS : gmap string session) :
  match SESSIONS !! remote_addr with
  | Some _ => (next_question o remote_addr SESSIONS).2 = SESSIONS
  | None =>
      exists selected,
        selected ≡ₚ QUESTIONS /\
        (next_question o remote_addr SESSIONS).2 =
          <[remote_addr := new_session selected]> SESSIONS
  end.
Proof.
  unfold next_question.
  destruct (SESSIONS !! remote_addr) as [s|] eqn:Hs.
  - rewrite (get_or_create_old _ _ _ _ Hs).
    destruct (_ <=? _); [done|]. by destruct (list_getitem _ _).
  - destruct (get_or_create_new o _ _ Hs) as (selected & -> & Hperm).
    exists selected. split; [done|].
    destruct (_ <=? _); [done|]. by destruct (list_getitem _ _).
Qed.

(** [handle_answer] leaves the dictionary alone, or records one answer to
    the question under the cursor. *)
Lemma handle_answer_store o remote_addr body (SESSIONS : gmap string session) :
  (handle_answer o remote_addr body SESSIONS).1.2 = SESSIONS \/
  exists s question a,
    SESSIONS !! remote_addr = Some s /\
    list_getitem (questions s) (index s) = Ok question /\
    (handle_answer o remote_addr body SESSIONS).1.2 =
      <[remote_addr := record_answer s a]> SESSIONS.
Proof.
  unfold handle_answer.
  destruct (SESSIONS !! remote_addr) as [s|] eqn:Hs; [|by left].
  destruct (posted_answer body) as [answer|]; [|by left].
  case_bool_decide; [by left|].
  destruct (list_getitem _ _) as [question|] eqn:Hq; [|by left].
  destruct (ask_groq o question answer) as [[verdict|e] events]; [|by left].
  right. eexists s, question, _. done.
Qed.

(** The three things a request can do to the dictionary. *)
Lemma store_after_cases o r (SESSIONS : gmap string session) :
  store_after o r SESSIONS = SESSIONS \/
  (exists remote_addr selected,
     SESSIONS !! remote_addr = None /\ selected ≡ₚ QUESTIONS /\
     store_after o r SESSIONS = <[remote_addr := new_session selected]> SESSIONS) \/
  (exists remote_addr s question a,
     SESSIONS !! remote_addr = Some s /\
     list_getitem (questions s) (index s) = Ok question /\
     store_after o r SESSIONS = <[remote_addr := record_answer s a]> SESSIONS).
Proof.
  unfold store_after, serve. destruct r as [remote_addr|remote_addr body].
  - pose proof (next_question_store o remote_addr SESSIONS) as H.
    destruct (next_question o remote_addr SESSIONS) as [rep S'] eqn:Hn.
    simpl in *. destruct (SESSIONS !! remote_addr) eqn:Hs.
    + by left.
    + destruct H as (selected & Hperm & ->). right. left. by eexists _, _.
  - destruct (handle_answer_store o remote_addr body SESSIONS) as [H|H].
    + by left.
    + destruct H as (s & question & a & Hs & Hq & H).
      right. right. by eexists _, _, _, _.
Qed.

(* ===================================================================== *)
(** ** Invariants of the reachable dictionaries *)
(* ===================================================================== *)

Lemma new_session_ok selected : session_ok (new_session selected).
Proof. unfold session_ok, len. simpl. lia. Qed.

Lemma record_answer_ok s a question :
  session_ok s -> list_getitem (questions s) (index s) = Ok question ->
  session_ok (record_answer s a).
Proof.
  intros [Hlen Hidx] Hq.
  apply list_getitem_Ok in Hq as [Hlt _]; [|lia].
  unfold session_ok, len in *. simpl. rewrite length_app. simpl. lia.
Qed.

Lemma store_after_ok o r (SESSIONS : gmap string session) :
  store_ok SESSIONS -> store_ok (store_after o r SESSIONS).
Proof.
  intros Hok.
  destruct (store_after_cases o r SESSIONS)
    as [-> | [(addr & sel & Hnone & Hperm & ->) | (addr & s & q & a & Hs & Hq & ->)]];
    [done| |]; intros id s' Hs'.
  - destruct (decide (addr = id)) as [->|Hne].
    + rewrite lookup_insert_eq in Hs'. injection Hs' as <-.
      split; [apply new_session_ok | done].
    + rewrite lookup_insert_ne in Hs' by done. by apply (Hok id).
  - destruct (decide (addr = id)) as [->|Hne].
    + rewrite lookup_insert_eq in Hs'. injection Hs' as <-.
      destruct (Hok id s Hs) as [Hs_ok Hperm].
      split; [by eapply record_answer_ok | done].
    + rewrite lookup_insert_ne in Hs' by done. by apply (Hok id).
Qed.

Lemma reachable_ok (SESSIONS : gmap string session) :
  reachable SESSIONS -> store_ok SESSIONS.
Proof.
  induction 1 as [|o r S _ IH].
  - intros id s Hs. by rewrite lookup_empty in Hs.
  - by apply store_after_ok.
Qed.

(** A request never removes a session and never moves a cursor back. *)
Lemma store_after_mono o r (SESSIONS : gmap string session) session_id s :
  SESSIONS !! session_id = Some s ->
  exists s', store_after o r SESSIONS !! session_id = Some s' /\
             questions s' = questions s /\ index s <= index s'.
Proof.
  intros Hs.
  destruct (store_after_cases o r SESSIONS)
    as [-> | [(addr & sel & Hnone & Hperm & ->) | (addr & s0 & q & a & Hs0 & Hq & ->)]].
  - exists s. by rewrite Hs.
  - exists s. rewrite lookup_insert_ne by congruence. by rewrite Hs.
  - destruct (decide (addr = session_id)) as [->|Hne].
    + rewrite lookup_insert_eq. eexists; split; [done|].
      assert (s0 = s) as -> by congruence. simpl. split; [done | lia].
    + exists s. rewrite lookup_insert_ne by done. by rewrite Hs.
Qed.

Lemma reachable_run trace (SESSIONS : gmap string session) :
  reachable SESSIONS -> reachable (run trace SESSIONS).
Proof.
  revert SESSIONS. induction trace as [|[o r] trace IH]; intros S HS; [done|].
  apply IH. by constructor.
Qed.

Lemma reachable_fresh_store : reachable fresh_store.
Proof. apply reachable_serve, reachable_start. Qed.

Lemma reachable_completed_store : reachable completed_store.
Proof. apply reachable_run, reachable_fresh_store. Qed.

(** C3.  In every dictionary the process can hold and after every request
    served from it, whatever the request and whatever its outcome, each
    session has [len(answers) == index] and [0 <= index <= len(questions)],
    and each session that was there is still there with an [index] at least
    as large. *)
Theorem sessions_invariant (o : outside) (r : request)
    (SESSIONS : gmap string session) :
  reachable SESSIONS ->
  (forall session_id s',
     store_after o r SESSIONS !! session_id = Some s' ->
     len (answers s') = index s' /\ 0 <= index s' <= len (questions s')) /\
  (forall session_id s,
     SESSIONS !! session_id = Some s ->
     exists s', store_after o r SESSIONS !! session_id = Some s' /\
                index s <= index s').
Proof.
  intros Hreach. split.
  - intros id s' Hs'.
    by destruct (reachable_ok _ (reachable_serve o r _ Hreach) id s' Hs') as [[? ?] _].
  - intros id s Hs.
    destruct (store_after_mono o r _ id s Hs) as (s' & Hs' & _ & Hle). eauto.
Qed.

Lemma sessions_invariant_witness :
  (forall session_id s',
     store_after endpoint_down (POST_answer client (answer_body (u "yes")))
       fresh_store !! session_id = Some s' ->
     len (answers s') = index s' /\ 0 <= index s' <= len (questions s')) /\
  (forall session_id s,
     fresh_store !! session_id = Some s ->
     exists s',
       store_after endpoint_down (POST_answer client (answer_body (u "yes")))
         fresh_store !! session_id = Some s' /\
       index s <= index s').
Proof.
  apply sessions_invariant. unfold fresh_store.
  apply reachable_serve. apply reachable_start.
Defined.

(** C10.  The pool has exactly [SESSION_QUESTIONS] entries, so the questions
    of every session of a reachable dictionary are a rearrangement of the
    whole pool, and any two sessions ask the same questions up to order. *)
Theorem session_questions_permutation (SESSIONS : gmap string session)
    (session_id : string) (s : session) :
  reachable SESSIONS ->
  SESSIONS !! session_id = Some s ->
  questions s ≡ₚ QUESTIONS /\
  (forall other s', SESSIONS !! other = Some s' -> questions s' ≡ₚ questions s).
Proof.
  intros Hreach Hs.
  destruct (reachable_ok _ Hreach _ _ Hs) as [_ Hperm]. split; [done|].
  intros other s' Hs'.
  destruct (reachable_ok _ Hreach _ _ Hs') as [_ Hperm']. by rewrite Hperm, Hperm'.
Qed.

Lemma session_questions_permutation_witness :
  exists s,
    fresh_store !! client = Some s /\
    questions s ≡ₚ QUESTIONS /\
    (forall other s', fresh_store !! other = Some s' -> questions s' ≡ₚ questions s).
Proof.
  eexists. split; [vm_compute; reflexivity|].
  apply (session_questions_permutation fresh_store client);
    [apply reachable_fresh_store | vm_compute; reflexivity].
Defined.

(* ===================================================================== *)
(** ** [GET /next] *)
(* ===================================================================== *)

(** C8.  For an address without a session, lines 88 to 96 create the session
    [{questions, answers: [], index: 0}] whose questions are 30 entries of
    the pool, no position of the pool taken twice and no question repeated,
    and store it under the address; for an address that has a session they
    return that session and leave [SESSIONS] as it was, whatever the
    [random] module would have drawn. *)
Theorem get_or_create_spec (o : outside) (session_id : string)
    (SESSIONS : gmap string session) :
  (SESSIONS !! session_id = None ->
   exists selected,
     get_or_create o session_id SESSIONS =
       Ok ({| questions := selected; answers := []; index := 0 |},
           <[session_id := {| questions := selected; answers := []; index := 0 |}]>
             SESSIONS) /\
     len selected = 30 /\ NoDup selected /\ selected ⊆+ QUESTIONS) /\
  (forall s,
     SESSIONS !! session_id = Some s ->
     forall o', get_or_create o' session_id SESSIONS = Ok (s, SESSIONS)).
Proof.
  split.
  - intros Hnone.
    destruct (get_or_create_new o _ _ Hnone) as (selected & Hget & Hperm).
    exists selected. split; [exact Hget|]. split; [|split].
    + unfold len. by rewrite Hperm.
    + rewrite Hperm. apply NoDup_QUESTIONS.
    + by rewrite Hperm.
  - intros s Hs o'. by apply get_or_create_old.
Qed.

Lemma get_or_create_spec_witness :
  (exists selected,
     get_or_create endpoint_down client ∅ =
       Ok ({| questions := selected; answers := []; index := 0 |},
           <[client := {| questions := selected; answers := []; index := 0 |}]> ∅) /\
     len selected = 30 /\ NoDup selected /\ selected ⊆+ QUESTIONS) /\
  (exists s,
     fresh_store !! client = Some s /\
     forall o', get_or_create o' client fresh_store = Ok (s, fresh_store)).
Proof.
  split.
  - apply (proj1 (get_or_create_spec endpoint_down client ∅)). reflexivity.
  - eexists. split; [vm_compute; reflexivity|].
    apply (proj2 (get_or_create_spec endpoint_down client fresh_store)).
    vm_compute; reflexivity.
Defined.

(** C7.  For a client that has a session, [next_question] leaves [SESSIONS]
    as it was (so [index] and [answers] do not move); when
    [index >= len(questions)] it returns [{"done": true}], with no question;
    and a further call, whatever the outside world does, returns the same
    reply and the same dictionary. *)
Theorem next_question_frame (o : outside) (remote_addr : string)
    (SESSIONS : gmap string session) (s : session) :
  SESSIONS !! remote_addr = Some s ->
  (next_question o remote_addr SESSIONS).2 = SESSIONS /\
  (len (questions s) <= index s ->
   (next_question o remote_addr SESSIONS).1 =
     Returned (JObj [(u "done", JBool true)]) 200) /\
  (forall o',
     next_question o' remote_addr (next_question o remote_addr SESSIONS).2 =
       next_question o remote_addr SESSIONS).
Proof.
  intros Hs.
  assert (Hframe : forall o1, (next_question o1 remote_addr SESSIONS).2 = SESSIONS).
  { intros o1. pose proof (next_question_store o1 remote_addr SESSIONS) as H.
    by rewrite Hs in H. }
  assert (Hsame : forall o1 o2, next_question o1 remote_addr SESSIONS =
                                next_question o2 remote_addr SESSIONS).
  { intros o1 o2. unfold next_question.
    by rewrite (get_or_create_old o1 _ _ _ Hs), (get_or_create_old o2 _ _ _ Hs). }
  split; [apply Hframe|]. split.
  - intros Hdone. unfold next_question. rewrite (get_or_create_old _ _ _ _ Hs).
    apply Z.leb_le in Hdone. by rewrite Hdone.
  - intros o'. rewrite Hframe. apply Hsame.
Qed.

Lemma next_question_frame_witness :
  (next_question endpoint_down client completed_store).2 = completed_store /\
  (next_question endpoint_down client completed_store).1 =
    Returned (JObj [(u "done", JBool true)]) 200 /\
  (forall o',
     next_question o' client (next_question endpoint_down client completed_store).2 =
       next_question endpoint_down client completed_store).
Proof.
  assert (Hs : exists s, completed_store !! client = Some s /\
                         len (questions s) <= index s).
  { eexists. split; [vm_compute; reflexivity|]. vm_compute. discriminate. }
  destruct Hs as (s & Hs & Hdone).
  destruct (next_question_frame endpoint_down client completed_store s Hs)
    as (H1 & H2 & H3).
  split; [exact H1|]. split; [exact (H2 Hdone) | exact H3].
Defined.

(* ===================================================================== *)
(** ** [ask_groq] never raises *)
(* ===================================================================== *)

Lemma ask_groq_try_failed (p : post_outcome) :
  failed p <-> exists e, ask_groq_try p = Raise e.
Proof.
  destruct p as [e|status_code text]; simpl.
  { split; eauto. }
  unfold raise_for_status.
  destruct ((400 <=? status_code) && (status_code <? 600)) eqn:Hst; simpl.
  - apply andb_prop in Hst as [?%Z.leb_le ?%Z.ltb_lt].
    split; [eauto | intros _; left; lia].
  - assert (~ 400 <= status_code < 600).
    { intros [?%Z.leb_le ?%Z.ltb_lt]. rewrite andb_true_intro in Hst; done. }
    destruct text as [data|]; simpl.
    + split; [intros [?|?]; [lia | done] | by right].
    + split; [eauto | by right].
Qed.

Lemma VERDICTS_lookup (r : nat) :
  exists verdict, VERDICTS !! (r mod 3)%nat = Some verdict.
Proof.
  apply lookup_lt_is_Some_2. change (length VERDICTS) with 3%nat.
  apply Nat.mod_upper_bound. lia.
Qed.

Lemma choice_VERDICTS (rand : nat -> nat) :
  exists verdict,
    choice rand VERDICTS = Ok verdict /\
    VERDICTS !! (rand 0%nat mod 3)%nat = Some verdict.
Proof.
  destruct (VERDICTS_lookup (rand 0%nat)) as [verdict Hv].
  exists verdict. split; [|done].
  unfold choice, randbelow. change (length VERDICTS) with 3%nat.
  rewrite bool_decide_eq_false_2 by lia. by apply list_getitem_nat.
Qed.

(** C6, as the code has it.  [ask_groq] never raises: for every question,
    answer and behaviour of the outside world it returns a string.  When the
    request fails, that is when [requests.post] raises (network error,
    time-out), the status is 4xx or 5xx, or the body is not JSON or holds no
    text at [choices[0].message.content], the string is the label at the
    position [random.choice] draws among 0, 1 and 2, the three labels being
    distinct; otherwise it is the stripped text of the completion. *)
Theorem ask_groq_total (o : outside) (question answer : pystr) :
  (exists verdict,
     (ask_groq o question answer).1 = Ok verdict /\
     (failed (post o) ->
      VERDICTS !! (rand o 0%nat mod 3)%nat = Some verdict /\ verdict ∈ VERDICTS) /\
     (~ failed (post o) -> ask_groq_try (post o) = Ok verdict)) /\
  NoDup VERDICTS /\ length VERDICTS = 3%nat.
Proof.
  split; [|split; [apply (bool_decide_unpack _); vm_compute; exact I | done]].
  unfold ask_groq.
  destruct (ask_groq_try (post o)) as [verdict|e] eqn:Htry.
  - exists verdict. split; [done|]. split; [|done].
    intros [e He]%ask_groq_try_failed. congruence.
  - destruct (choice_VERDICTS (rand o)) as (verdict & Hc & Hv).
    exists verdict. split; [exact Hc|]. split.
    + intros _. split; [done|]. by eapply list_elem_of_lookup_2.
    + intros Hnot. exfalso. apply Hnot. apply ask_groq_try_failed. eauto.
Qed.

Lemma ask_groq_total_witness :
  (exists verdict,
     (ask_groq endpoint_down (u "Do you always tell the truth?") (u "yes")).1 =
       Ok verdict /\
     VERDICTS !! (rand endpoint_down 0%nat mod 3)%nat = Some verdict /\
     verdict ∈ VERDICTS) /\
  (exists verdict,
     (ask_groq (endpoint_says 200 (u " Lying 🤥 "))
        (u "Do you always tell the truth?") (u "yes")).1 = Ok verdict /\
     ask_groq_try (post (endpoint_says 200 (u " Lying 🤥 "))) = Ok verdict).
Proof.
  split.
  - destruct (ask_groq_total endpoint_down (u "Do you always tell the truth?")
                (u "yes")) as [(verdict & Hv & Hfail & _) _].
    exists verdict. split; [exact Hv|]. apply Hfail. exact I.
  - destruct (ask_groq_total (endpoint_says 200 (u " Lying 🤥 "))
                (u "Do you always tell the truth?") (u "yes"))
      as [(verdict & Hv & _ & Hok) _].
    exists verdict. split; [exact Hv|]. apply Hok.
    intros [[? ?]|[e He]]; [lia|]. vm_compute in He. discriminate.
Defined.

(** C6 as stated fails: a response with status 300, which is not 2xx, and
    a well-formed completion is not a failure for [raise_for_status]; its
    text is returned as the verdict, and it is none of the three labels. *)
Lemma ask_groq_status_300 :
  spec_failure (post (endpoint_says 300 (u "maybe"))) /\
  (ask_groq (endpoint_says 300 (u "maybe"))
     (u "Do you always tell the truth?") (u "yes")).1 = Ok (u "maybe") /\
  u "maybe" ∉ VERDICTS.
Proof.
  split; [left; lia|]. split; [vm_compute; reflexivity|].
  apply (bool_decide_unpack _). vm_compute. exact I.
Qed.

(* ===================================================================== *)
(** ** The final summary *)
(* ===================================================================== *)

Lemma mentions_nil label : mentions label [] = 0.
Proof. reflexivity. Qed.

Lemma mentions_cons label a recorded :
  mentions label (a :: recorded) =
    (if contains (a_verdict a) label then 1 else 0) + mentions label recorded.
Proof.
  unfold mentions, len. rewrite filter_cons.
  destruct (decide _) as [Hc|Hc]; destruct (contains (a_verdict a) label);
    simpl in *; try done; lia.
Qed.

(** One round of the outer loop of lines 135 to 138. *)
Lemma count_verdicts_round (v : pystr) (c1 c2 c3 : Z) :
  foldl (fun counts key => if contains v key then dict_add key 1 counts else counts)
        [(TRUTHFUL, c1); (SUSPICIOUS, c2); (LYING, c3)]
        [TRUTHFUL; SUSPICIOUS; LYING] =
    [(TRUTHFUL, c1 + (if contains v TRUTHFUL then 1 else 0));
     (SUSPICIOUS, c2 + (if contains v SUSPICIOUS then 1 else 0));
     (LYING, c3 + (if contains v LYING then 1 else 0))].
Proof.
  assert (Hz : forall c, c + 0 = c) by (intros; lia).
  simpl foldl.
  destruct (contains v TRUTHFUL), (contains v SUSPICIOUS), (contains v LYING);
    rewrite ?Hz; vm_compute; reflexivity.
Qed.

Lemma count_verdicts_from (recorded : list answer_record) : forall c1 c2 c3,
  foldl
    (fun counts a =>
       foldl
         (fun counts key =>
            if contains (a_verdict a) key then dict_add key 1 counts else counts)
         counts (map fst counts))
    [(TRUTHFUL, c1); (SUSPICIOUS, c2); (LYING, c3)] recorded =
    [(TRUTHFUL, c1 + mentions TRUTHFUL recorded);
     (SUSPICIOUS, c2 + mentions SUSPICIOUS recorded);
     (LYING, c3 + mentions LYING recorded)].
Proof.
  induction recorded as [|a recorded IH]; intros c1 c2 c3.
  - rewrite !mentions_nil, !Z.add_0_r. done.
  - cbn [foldl]. cbn [map fst].
    rewrite count_verdicts_round, IH, !mentions_cons, !Z.add_assoc. done.
Qed.

(** The counts of the summary: per label, the recorded verdicts that
    contain it. *)
Lemma count_verdicts_eq (recorded : list answer_record) :
  count_verdicts recorded =
    [(TRUTHFUL, mentions TRUTHFUL recorded);
     (SUSPICIOUS, mentions SUSPICIOUS recorded);
     (LYING, mentions LYING recorded)].
Proof. apply (count_verdicts_from recorded 0 0 0). Qed.

Lemma honesty_percent_eq (c1 c2 c3 : Z) :
  honesty_percent [(TRUTHFUL, c1); (SUSPICIOUS, c2); (LYING, c3)] =
    code_honesty_percent c1 c2 c3.
Proof.
  unfold honesty_percent, code_honesty_percent, sum_values.
  simpl foldl. cbv zeta.
  replace (0 + c1 + c2 + c3) with (c1 + c2 + c3) by lia.
  destruct (0 <? _); [|done].
  replace (default 0 (assoc (u "Truthful ✅") _)) with c1; [done|].
  vm_compute. reflexivity.
Qed.

(** The summary, in closed form. *)
Lemma summary_eq (recorded : list answer_record) :
  summary recorded =
    JObj [(u "counts",
           JObj [(TRUTHFUL, JInt (mentions TRUTHFUL recorded));
                 (SUSPICIOUS, JInt (mentions SUSPICIOUS recorded));
                 (LYING, JInt (mentions LYING recorded))]);
          (u "honesty_percent",
           code_honesty_percent (mentions TRUTHFUL recorded)
             (mentions SUSPICIOUS recorded) (mentions LYING recorded))].
Proof.
  unfold summary. cbv zeta. by rewrite count_verdicts_eq, honesty_percent_eq.
Qed.

(** When every verdict holds exactly one label, the three counts add up to
    the number of recorded answers. *)
Lemma mentions_one_label (recorded : list answer_record) :
  Forall one_label recorded ->
  mentions TRUTHFUL recorded + mentions SUSPICIOUS recorded +
    mentions LYING recorded = len recorded.
Proof.
  induction 1 as [|a recorded Ha _ IH]; [done|].
  rewrite !mentions_cons. unfold one_label in Ha.
  unfold len in *. simpl length. lia.
Qed.

(** [ask_groq] returns. *)
Lemma ask_groq_returns (o : outside) (question answer : pystr) :
  exists verdict events, ask_groq o question answer = (Ok verdict, events).
Proof.
  unfold ask_groq. destruct (ask_groq_try (post o)) as [verdict|e]; [by eauto|].
  destruct (choice_VERDICTS (rand o)) as (verdict & Hc & _).
  exists verdict, [Requests_post question answer; Print_error e].
  f_equal. exact Hc.
Qed.

(** An answer that is not empty, for a cursor within the questions, is
    recorded with the verdict of [ask_groq]; the reply carries the summary
    exactly when the cursor reaches the end. *)
Lemma handle_answer_accepts (o : outside) (remote_addr : string)
    (body : option json) (SESSIONS : gmap string session) (s : session)
    (answer question : pystr) :
  SESSIONS !! remote_addr = Some s ->
  posted_answer body = Ok answer -> answer <> [] ->
  list_getitem (questions s) (index s) = Ok question ->
  exists verdict events,
    ask_groq o question answer = (Ok verdict, events) /\
    handle_answer o remote_addr body SESSIONS =
      (Returned
         (JObj [(u "verdict", JStr verdict);
                (u "progress", JInt (index s + 1));
                (u "done", JBool (len (questions s) <=? index s + 1));
                (u "summary",
                 if len (questions s) <=? index s + 1
                 then summary (answers s ++
                                 [{| a_question := question; a_answer := answer;
                                     a_verdict := verdict |}])
                 else JNull)]) 200,
       <[remote_addr :=
           record_answer s {| a_question := question; a_answer := answer;
                              a_verdict := verdict |}]> SESSIONS,
       events).
Proof.
  intros Hs Ha Hne Hq.
  destruct (ask_groq_returns o question answer) as (verdict & events & Hv).
  exists verdict, events. split; [done|].
  unfold handle_answer. rewrite Hs, Ha.
  rewrite bool_decide_eq_false_2 by done. by rewrite Hq, Hv.
Qed.

Lemma list_getitem_in_range {A} (l : list A) (i : Z) :
  0 <= i < len l -> exists x, list_getitem l i = Ok x.
Proof.
  intros Hi. unfold len in Hi.
  destruct (lookup_lt_is_Some_2 l (Z.to_nat i) ltac:(lia)) as [x Hx].
  exists x. rewrite <- (Z2Nat.id i) by lia. by apply list_getitem_nat.
Qed.

(** Reading the fields of the reply of an accepted answer. *)
Lemma reply_fields (v p d sm : json) (status : Z) :
  let rep := Returned (JObj [(u "verdict", v); (u "progress", p);
                             (u "done", d); (u "summary", sm)]) status in
  reply_field (u "verdict") rep = Some v /\
  reply_field (u "progress") rep = Some p /\
  reply_field (u "done") rep = Some d /\
  reply_field (u "summary") rep = Some sm.
Proof. vm_compute. done. Qed.

Lemma summary_fields (c h : json) :
  json_field (u "counts") (JObj [(u "counts", c); (u "honesty_percent", h)]) = Some c /\
  json_field (u "honesty_percent")
    (JObj [(u "counts", c); (u "honesty_percent", h)]) = Some h.
Proof. vm_compute. done. Qed.

(** The reply of the answer that completes a session, field by field. *)
Lemma handle_answer_completes (o : outside) (remote_addr : string)
    (body : option json) (SESSIONS : gmap string session) (s : session)
    (answer : pystr) :
  SESSIONS !! remote_addr = Some s ->
  posted_answer body = Ok answer -> answer <> [] ->
  0 <= index s -> index s + 1 = len (questions s) ->
  exists s' rep_body,
    (handle_answer o remote_addr body SESSIONS).1.1 = Returned rep_body 200 /\
    (handle_answer o remote_addr body SESSIONS).1.2 !! remote_addr = Some s' /\
    questions s' = questions s /\ index s' = index s + 1 /\
    len (answers s') = len (answers s) + 1 /\
    reply_field (u "done") (Returned rep_body 200) = Some (JBool true) /\
    reply_field (u "progress") (Returned rep_body 200) = Some (JInt (index s')) /\
    reply_field (u "summary") (Returned rep_body 200) = Some (summary (answers s')).
Proof.
  intros Hs Ha Hne Hidx Hlast.
  destruct (list_getitem_in_range (questions s) (index s) ltac:(lia)) as [question Hq].
  destruct (handle_answer_accepts o _ _ _ _ _ _ Hs Ha Hne Hq)
    as (verdict & events & _ & ->).
  assert (Hdone : (len (questions s) <=? index s + 1) = true) by (apply Z.leb_le; lia).
  rewrite Hdone. cbn [fst snd].
  eexists _, _. split; [reflexivity|]. split; [apply lookup_insert_eq|].
  split; [done|]. split; [done|]. split.
  { unfold len. simpl. rewrite length_app. simpl. lia. }
  match goal with |- context [Returned (JObj [(_, ?v); (_, ?p); (_, ?d); (_, ?sm)]) ?st] =>
    destruct (reply_fields v p d sm st) as (_ & Hp & Hd & Hsm) end.
  split; [exact Hd|]. split; [exact Hp | exact Hsm].
Qed.

(* ===================================================================== *)
(** ** The summary of a completed session *)
(* ===================================================================== *)

(** C1, as the code has it.  When an accepted answer completes the session
    ([index] reaches [len(questions)]), the [honesty_percent] of the returned
    summary is [round((truthful / total) * 100, 1)], where [truthful] is the
    number of recorded verdicts that contain the truthful label and [total]
    is the sum of the three per-label counts, and the integer [0] when that
    sum is 0.  The sum is the number of recorded answers when every recorded
    verdict contains exactly one label. *)
Theorem honesty_percent_at_completion (o : outside) (remote_addr : string)
    (body : option json) (SESSIONS : gmap string session) (s : session)
    (answer : pystr) :
  SESSIONS !! remote_addr = Some s ->
  posted_answer body = Ok answer -> answer <> [] ->
  0 <= index s -> index s + 1 = len (questions s) ->
  exists s',
    (handle_answer o remote_addr body SESSIONS).1.2 !! remote_addr = Some s' /\
    len (questions s') <= index s' /\
    reply_honesty_percent (handle_answer o remote_addr body SESSIONS).1.1 =
      Some (let truthful := mentions TRUTHFUL (answers s') in
            let total := truthful + mentions SUSPICIOUS (answers s') +
                         mentions LYING (answers s') in
            if 0 <? total then
              JFloat (round1 (PrimFloat.mul (truediv truthful total)
                                            (float_of_int 100)))
            else JInt 0) /\
    (Forall one_label (answers s') ->
     mentions TRUTHFUL (answers s') + mentions SUSPICIOUS (answers s') +
       mentions LYING (answers s') = len (answers s')).
Proof.
  intros Hs Ha Hne Hidx Hlast.
  destruct (handle_answer_completes o _ _ _ _ _ Hs Ha Hne Hidx Hlast)
    as (s' & rep_body & -> & Hs' & Hqs & Hi & _ & _ & _ & Hsm).
  exists s'. split; [done|]. split; [rewrite Hqs; lia|]. split.
  - unfold reply_honesty_percent. rewrite Hsm, summary_eq.
    apply summary_fields.
  - apply mentions_one_label.
Qed.

Lemma honesty_percent_at_completion_witness :
  exists s',
    (handle_answer (endpoint_says 200 (u "Truthful ✅")) client
       (answer_body (u "yes")) unlabelled_store).1.2 !! client = Some s' /\
    len (questions s') <= index s' /\
    reply_honesty_percent
      (handle_answer (endpoint_says 200 (u "Truthful ✅")) client
         (answer_body (u "yes")) unlabelled_store).1.1 =
      Some (let truthful := mentions TRUTHFUL (answers s') in
            let total := truthful + mentions SUSPICIOUS (answers s') +
                         mentions LYING (answers s') in
            if 0 <? total then
              JFloat (round1 (PrimFloat.mul (truediv truthful total)
                                            (float_of_int 100)))
            else JInt 0) /\
    (Forall one_label (answers s') ->
     mentions TRUTHFUL (answers s') + mentions SUSPICIOUS (answers s') +
       mentions LYING (answers s') = len (answers s')).
Proof.
  eapply (honesty_percent_at_completion _ client _ unlabelled_store _ (u "yes"));
    [vm_compute; reflexivity | vm_compute; reflexivity | discriminate
    | vm_compute; discriminate | vm_compute; reflexivity].
Defined.

(** C1 as stated fails: [client] completes a session of 30 answers of which
    15 verdicts contain the truthful label and 15 contain no label; the
    returned [honesty_percent] is 100.0, the rounded ratio of 15 to the 30
    recorded answers is 50.0. *)
Lemma honesty_percent_unlabelled :
  exists s',
    (handle_answer (endpoint_says 200 (u "Truthful ✅")) client
       (answer_body (u "yes")) unlabelled_store).1.2 !! client = Some s' /\
    len (questions s') <= index s' /\
    len (answers s') = 30 /\ mentions TRUTHFUL (answers s') = 15 /\
    reply_honesty_percent
      (handle_answer (endpoint_says 200 (u "Truthful ✅")) client
         (answer_body (u "yes")) unlabelled_store).1.1 =
      Some (JFloat (float_of_int 100)) /\
    spec_honesty_percent (answers s') = JFloat (float_of_int 50) /\
    reply_honesty_percent
      (handle_answer (endpoint_says 200 (u "Truthful ✅")) client
         (answer_body (u "yes")) unlabelled_store).1.1 <>
      Some (spec_honesty_percent (answers s')).
Proof.
  eexists. split; [vm_compute; reflexivity|].
  split; [vm_compute; discriminate|].
  split; [vm_compute; reflexivity|]. split; [vm_compute; reflexivity|].
  split; [vm_compute; reflexivity|]. split; [vm_compute; reflexivity|].
  intros H.
  apply (f_equal (fun v => match v with
                           | Some (JFloat x) => FloatOps.Prim2SF x
                           | _ => SpecFloat.S754_nan
                           end)) in H.
  vm_compute in H. discriminate.
Qed.

(** C4, as the code has it.  For a session of a reachable dictionary that
    holds 29 answers, the next accepted answer is the 30th: the reply has
    status 200, [done: true], [progress: 30] and a summary that is a JSON
    object, whose three counts are, per label, the recorded verdicts that
    contain the label.  They add up to 30 when every recorded verdict
    contains exactly one label. *)
Theorem thirtieth_answer_summary (o : outside) (remote_addr : string)
    (body : option json) (SESSIONS : gmap string session) (s : session)
    (answer : pystr) :
  reachable SESSIONS ->
  SESSIONS !! remote_addr = Some s -> index s = 29 ->
  posted_answer body = Ok answer -> answer <> [] ->
  exists s' rep_body,
    (handle_answer o remote_addr body SESSIONS).1.1 = Returned rep_body 200 /\
    (handle_answer o remote_addr body SESSIONS).1.2 !! remote_addr = Some s' /\
    len (answers s') = 30 /\
    reply_field (u "done") (Returned rep_body 200) = Some (JBool true) /\
    reply_field (u "progress") (Returned rep_body 200) = Some (JInt 30) /\
    (exists fields,
       reply_field (u "summary") (Returned rep_body 200) = Some (JObj fields)) /\
    reply_counts (Returned rep_body 200) =
      Some [mentions TRUTHFUL (answers s'); mentions SUSPICIOUS (answers s');
            mentions LYING (answers s')] /\
    (Forall one_label (answers s') ->
     mentions TRUTHFUL (answers s') + mentions SUSPICIOUS (answers s') +
       mentions LYING (answers s') = 30).
Proof.
  intros Hreach Hs Hidx Ha Hne.
  destruct (reachable_ok _ Hreach _ _ Hs) as [[Hlen _] Hperm].
  assert (Hq : len (questions s) = 30).
  { unfold len. rewrite Hperm. reflexivity. }
  destruct (handle_answer_completes o _ _ _ _ _ Hs Ha Hne ltac:(lia) ltac:(lia))
    as (s' & rep_body & Hrep & Hs' & _ & Hi & Hl & Hd & Hp & Hsm).
  exists s', rep_body. split; [done|]. split; [done|].
  assert (Hl30 : len (answers s') = 30) by lia.
  split; [done|]. split; [done|]. split; [by rewrite Hp, Hi, Hidx|].
  split; [|split].
  - rewrite Hsm, summary_eq. eauto.
  - unfold reply_counts. rewrite Hsm, summary_eq.
    rewrite (proj1 (summary_fields _ _)). done.
  - intros Hone. by rewrite mentions_one_label.
Qed.

Lemma reachable_unlabelled_store : reachable unlabelled_store.
Proof. apply reachable_run, reachable_fresh_store. Qed.

Lemma thirtieth_answer_summary_witness :
  exists s' rep_body,
    (handle_answer endpoint_down client (answer_body (u "yes"))
       unlabelled_store).1.1 = Returned rep_body 200 /\
    (handle_answer endpoint_down client (answer_body (u "yes"))
       unlabelled_store).1.2 !! client = Some s' /\
    len (answers s') = 30 /\
    reply_field (u "done") (Returned rep_body 200) = Some (JBool true) /\
    reply_field (u "progress") (Returned rep_body 200) = Some (JInt 30) /\
    (exists fields,
       reply_field (u "summary") (Returned rep_body 200) = Some (JObj fields)) /\
    reply_counts (Returned rep_body 200) =
      Some [mentions TRUTHFUL (answers s'); mentions SUSPICIOUS (answers s');
            mentions LYING (answers s')] /\
    (Forall one_label (answers s') ->
     mentions TRUTHFUL (answers s') + mentions SUSPICIOUS (answers s') +
       mentions LYING (answers s') = 30).
Proof.
  eapply (thirtieth_answer_summary _ client _ unlabelled_store _ (u "yes"));
    [apply reachable_unlabelled_store | vm_compute; reflexivity
    | vm_compute; reflexivity | vm_compute; reflexivity | discriminate].
Defined.

(** C4 as stated fails: the 30th answer of [client] completes a session in
    which 15 verdicts read ["Honest"]; the reply has [done: true] and the
    three counts are 15, 0 and 0. *)
Lemma counts_sum_unlabelled :
  reachable unlabelled_store /\
  (exists s, unlabelled_store !! client = Some s /\ len (answers s) = 29) /\
  reply_field (u "done")
    (handle_answer (endpoint_says 200 (u "Truthful ✅")) client
       (answer_body (u "yes")) unlabelled_store).1.1 = Some (JBool true) /\
  reply_counts
    (handle_answer (endpoint_says 200 (u "Truthful ✅")) client
       (answer_body (u "yes")) unlabelled_store).1.1 = Some [15; 0; 0] /\
  foldr Z.add 0 [15; 0; 0] <> 30.
Proof.
  split; [apply reachable_unlabelled_store|].
  split; [eexists; split; vm_compute; reflexivity|].
  split; [vm_compute; reflexivity|]. split; [vm_compute; reflexivity|].
  vm_compute. discriminate.
Qed.

(* ===================================================================== *)
(** ** [POST /answer] after the last question *)
(* ===================================================================== *)

(** C2 at the failing input.  Once the cursor of a session has reached
    [len(questions)], an answer that is not empty makes line 123 raise
    [IndexError]: the exception leaves [handle_answer], [SESSIONS] is left
    as it was and the endpoint is not called. *)
Theorem handle_answer_after_completion (o : outside) (remote_addr : string)
    (body : option json) (SESSIONS : gmap string session) (s : session)
    (answer : pystr) :
  SESSIONS !! remote_addr = Some s ->
  index s = len (questions s) ->
  posted_answer body = Ok answer -> answer <> [] ->
  handle_answer o remote_addr body SESSIONS = (Raised IndexError, SESSIONS, []).
Proof.
  intros Hs Hidx Ha Hne. unfold handle_answer. rewrite Hs, Ha.
  rewrite bool_decide_eq_false_2 by done.
  by rewrite Hidx, list_getitem_end.
Qed.

Lemma handle_answer_after_completion_witness :
  reachable completed_store /\
  handle_answer endpoint_down client (answer_body (u "yes")) completed_store =
    (Raised IndexError, completed_store, []).
Proof.
  split; [apply reachable_completed_store|].
  eapply (handle_answer_after_completion _ client _ completed_store _ (u "yes"));
    [vm_compute; reflexivity | vm_compute; reflexivity
    | vm_compute; reflexivity | discriminate].
Defined.

(* ===================================================================== *)
(** ** Further properties: what [strip] leaves *)
(* ===================================================================== *)

Lemma lstrip_head (s : pystr) (c : N) :
  head (lstrip s) = Some c -> isspace c = false.
Proof.
  induction s as [|c0 r IH]; simpl; [done|].
  destruct (isspace c0) eqn:Hc0; [exact IH|].
  simpl. by intros [= <-].
Qed.

Lemma last_lstrip (s : pystr) (c : N) :
  last (lstrip s) = Some c -> last s = Some c.
Proof.
  induction s as [|c0 r IH]; simpl lstrip; [done|].
  destruct (isspace c0); [|done].
  intros H. specialize (IH H). rewrite last_cons, IH. done.
Qed.

Lemma strip_trimmed (s : pystr) : trimmed (strip s).
Proof.
  unfold trimmed, strip, rstrip. split; intros c.
  - rewrite head_reverse. intros H%last_lstrip.
    rewrite last_reverse in H. by eapply lstrip_head.
  - rewrite last_reverse. apply lstrip_head.
Qed.

Lemma lstrip_id (s : pystr) :
  (forall c, head s = Some c -> isspace c = false) -> lstrip s = s.
Proof.
  destruct s as [|c r]; [done|]. simpl. intros H. by rewrite (H c eq_refl).
Qed.

(** A string without white space around it is its own [strip]. *)
Lemma strip_of_trimmed (s : pystr) : trimmed s -> strip s = s.
Proof.
  intros [Hh Hl]. unfold strip, rstrip. rewrite (lstrip_id s Hh).
  rewrite lstrip_id; [apply reverse_involutive|].
  intros c. rewrite head_reverse. apply Hl.
Qed.

(* ===================================================================== *)
(** ** Further properties: every outcome of [POST /answer] *)
(* ===================================================================== *)

Lemma list_getitem_Raise {A} (l : list A) (i : Z) (e : exn) :
  list_getitem l i = Raise e -> e = IndexError.
Proof.
  unfold list_getitem. cbv zeta.
  destruct (_ || _); [by intros [= <-]|].
  destruct (l !! _); [discriminate | by intros [= <-]].
Qed.

(** The bodies [posted_answer] accepts: JSON objects whose [answer] is a
    string, or that have no [answer]. *)
Lemma posted_answer_Ok (body : option json) (answer : pystr) :
  posted_answer body = Ok answer <->
  exists fields text,
    body = Some (JObj fields) /\
    (assoc (u "answer") fields = Some (JStr text) \/
     assoc (u "answer") fields = None /\ text = []) /\
    answer = strip text.
Proof.
  unfold posted_answer, get_json, get_method. split.
  - destruct body as [data|]; [|discriminate]. simpl.
    destruct data as [| | | | |items|fields]; try discriminate. simpl.
    destruct (assoc (u "answer") fields) as [v|] eqn:Hv; simpl.
    + destruct v; try discriminate. simpl. intros [= <-]. eauto 10.
    + intros [= <-]. exists fields, []. eauto.
  - intros (fields & text & -> & [Hv | [Hv ->]] & ->); simpl; by rewrite Hv.
Qed.

Lemma posted_answer_Raise (body : option json) (e : exn) :
  posted_answer body = Raise e -> e = BadRequest \/ e = AttributeError.
Proof.
  unfold posted_answer, get_json, get_method.
  destruct body as [data|]; simpl; [|intros [= <-]; by left].
  destruct data as [| | | | |items|fields]; simpl; try (intros [= <-]; by right).
  destruct (default _ _); simpl; intros [= <-]; by right.
Qed.

(** What [ask_groq] does to the outside world: one call, and one printed
    line when the call failed. *)
Lemma ask_groq_events (o : outside) (question answer : pystr) :
  (ask_groq o question answer).2 = [Requests_post question answer] \/
  exists e, (ask_groq o question answer).2 =
              [Requests_post question answer; Print_error e].
Proof.
  unfold ask_groq. destruct (ask_groq_try (post o)); simpl; eauto.
Qed.

(** The five ways through [handle_answer]. *)
Lemma handle_answer_cases (o : outside) (remote_addr : string)
    (body : option json) (SESSIONS : gmap string session) :
  (SESSIONS !! remote_addr = None /\
   handle_answer o remote_addr body SESSIONS =
     (Returned (JObj [(u "error", JStr (u "Session not started"))]) 400,
      SESSIONS, [])) \/
  exists s,
    SESSIONS !! remote_addr = Some s /\
    ((exists e,
        posted_answer body = Raise e /\
        handle_answer o remote_addr body SESSIONS = (Raised e, SESSIONS, [])) \/
     (posted_answer body = Ok [] /\
      handle_answer o remote_addr body SESSIONS =
        (Returned (JObj [(u "error", JStr (u "No answer provided!"))]) 400,
         SESSIONS, [])) \/
     (exists answer,
        posted_answer body = Ok answer /\ answer <> [] /\
        ((list_getitem (questions s) (index s) = Raise IndexError /\
          handle_answer o remote_addr body SESSIONS =
            (Raised IndexError, SESSIONS, [])) \/
         (exists question verdict events,
            list_getitem (questions s) (index s) = Ok question /\
            ask_groq o question answer = (Ok verdict, events) /\
            handle_answer o remote_addr body SESSIONS =
              (Returned
                 (JObj [(u "verdict", JStr verdict);
                        (u "progress", JInt (index s + 1));
                        (u "done", JBool (len (questions s) <=? index s + 1));
                        (u "summary",
                         if len (questions s) <=? index s + 1
                         then summary (answers s ++
                                 [{| a_question := question; a_answer := answer;
                                     a_verdict := verdict |}])
                         else JNull)]) 200,
               <[remote_addr :=
                   record_answer s {| a_question := question; a_answer := answer;
                                      a_verdict := verdict |}]> SESSIONS,
               events))))).
Proof.
  destruct (SESSIONS !! remote_addr) as [s|] eqn:Hs.
  2: { left. split; [done|]. unfold handle_answer. by rewrite Hs. }
  right. exists s. split; [done|].
  destruct (posted_answer body) as [answer|e] eqn:Ha.
  2: { left. exists e. split; [done|]. unfold handle_answer. by rewrite Hs, Ha. }
  right. destruct (decide (answer = [])) as [->|Hne].
  { left. split; [done|]. unfold handle_answer. by rewrite Hs, Ha. }
  right. exists answer. split; [done|]. split; [done|].
  destruct (list_getitem (questions s) (index s)) as [question|e] eqn:Hq.
  - right.
    destruct (handle_answer_accepts o _ _ _ _ _ _ Hs Ha Hne Hq)
      as (verdict & events & Hv & H). eauto 10.
  - left. pose proof (list_getitem_Raise _ _ _ Hq) as ->. split; [done|].
    unfold handle_answer. rewrite Hs, Ha.
    rewrite bool_decide_eq_false_2 by done. by rewrite Hq.
Qed.

(** What a request does to the dictionary, with the record it adds. *)
Lemma store_after_detail (o : outside) (r : request)
    (SESSIONS : gmap string session) :
  store_after o r SESSIONS = SESSIONS \/
  (exists selected,
     r = GET_next (request_addr r) /\
     SESSIONS !! request_addr r = None /\ selected ≡ₚ QUESTIONS /\
     store_after o r SESSIONS =
       <[request_addr r := new_session selected]> SESSIONS) \/
  (exists s rec text,
     SESSIONS !! request_addr r = Some s /\
     list_getitem (questions s) (index s) = Ok (a_question rec) /\
     a_answer rec = strip text /\ a_answer rec <> [] /\
     store_after o r SESSIONS =
       <[request_addr r := record_answer s rec]> SESSIONS).
Proof.
  unfold store_after, serve. destruct r as [remote_addr|remote_addr body]; simpl.
  - pose proof (next_question_store o remote_addr SESSIONS) as H.
    destruct (next_question o remote_addr SESSIONS) as [rep S'] eqn:Hn.
    simpl in *. destruct (SESSIONS !! remote_addr) eqn:Hs.
    + by left.
    + destruct H as (selected & Hperm & ->). right. left. by exists selected.
  - destruct (handle_answer_cases o remote_addr body SESSIONS)
      as [[_ ->] | (s & Hs & [(e & _ & ->) | [[_ ->] | (answer & Ha & Hne & H)]])];
      [by left | by left | by left |].
    destruct H as [[_ ->] | (question & verdict & events & Hq & _ & ->)];
      [by left|].
    right. right. apply posted_answer_Ok in Ha as (fields & text & _ & _ & ->).
    exists s, {| a_question := question; a_answer := strip text;
                 a_verdict := verdict |}, text. done.
Qed.

(* ===================================================================== *)
(** ** Further properties: the dictionary *)
(* ===================================================================== *)

(** X1.  A request only touches the session of the address it comes from:
    the entry of every other address is what it was, whatever the request
    and its outcome. *)
Theorem request_isolated (o : outside) (r : request)
    (SESSIONS : gmap string session) (other : string) :
  other <> request_addr r ->
  store_after o r SESSIONS !! other = SESSIONS !! other.
Proof.
  intros Hne.
  destruct (store_after_detail o r SESSIONS)
    as [-> | [(sel & _ & _ & _ & ->) | (s & rec & text & _ & _ & _ & _ & ->)]];
    [done| |]; by rewrite lookup_insert_ne.
Qed.

Lemma request_isolated_witness :
  store_after endpoint_down (POST_answer client (answer_body (u "yes")))
    two_clients_store !! other_client = two_clients_store !! other_client.
Proof.
  apply request_isolated. discriminate.
Defined.

(** X2.  [POST /answer] neither creates nor removes a session, and
    [GET /next] adds at most the session of the caller: the addresses that
    have a session after [handle_answer] are those that had one, and after
    [next_question] they are those that had one and the caller's. *)
Theorem sessions_domain (o : outside) (remote_addr : string)
    (body : option json) (SESSIONS : gmap string session) :
  dom (handle_answer o remote_addr body SESSIONS).1.2 = dom SESSIONS /\
  dom (next_question o remote_addr SESSIONS).2 = {[remote_addr]} ∪ dom SESSIONS.
Proof.
  split.
  - destruct (handle_answer_store o remote_addr body SESSIONS)
      as [-> | (s & q & a & Hs & _ & ->)]; [done|].
    rewrite dom_insert_L. apply subseteq_union_1_L, singleton_subseteq_l.
    by eapply elem_of_dom_2.
  - pose proof (next_question_store o remote_addr SESSIONS) as H.
    destruct (SESSIONS !! remote_addr) as [s|] eqn:Hs.
    + rewrite H. symmetry. apply subseteq_union_1_L, singleton_subseteq_l.
      by eapply elem_of_dom_2.
    + destruct H as (selected & _ & ->). by rewrite dom_insert_L.
Qed.

Lemma record_answer_extends (s : session) (a : answer_record) :
  questions (record_answer s a) = questions s /\
  answers s `prefix_of` answers (record_answer s a) /\
  index s <= index (record_answer s a).
Proof.
  split; [done|]. split; [by apply prefix_app_r | simpl; lia].
Qed.

Lemma store_after_extends (o : outside) (r : request)
    (SESSIONS : gmap string session) (session_id : string) (s : session) :
  SESSIONS !! session_id = Some s ->
  exists s',
    store_after o r SESSIONS !! session_id = Some s' /\
    questions s' = questions s /\
    answers s `prefix_of` answers s' /\ index s <= index s'.
Proof.
  intros Hs.
  destruct (store_after_detail o r SESSIONS)
    as [-> | [(sel & _ & Hnone & _ & ->) | (s0 & rec & text & Hs0 & _ & _ & _ & ->)]].
  - exists s. rewrite Hs. split; [done|]. split; [done|]. split; [done | lia].
  - exists s. rewrite lookup_insert_ne by congruence. rewrite Hs.
    split; [done|]. split; [done|]. split; [done | lia].
  - destruct (decide (request_addr r = session_id)) as [Heq|Hne].
    + rewrite Heq in *. rewrite lookup_insert_eq.
      assert (s0 = s) as -> by congruence.
      eexists; split; [done|]. apply record_answer_extends.
    + exists s. rewrite lookup_insert_ne by done. rewrite Hs.
      split; [done|]. split; [done|]. split; [done | lia].
Qed.

(** X3.  Sessions are never removed and only grow: whatever requests are
    served, a session that was there is still there, with the same
    questions, with the answers it had as the first of its answers, and with
    an [index] that is not smaller. *)
Theorem run_extends (trace : list (outside * request))
    (SESSIONS : gmap string session) (session_id : string) (s : session) :
  SESSIONS !! session_id = Some s ->
  exists s',
    run trace SESSIONS !! session_id = Some s' /\
    questions s' = questions s /\
    answers s `prefix_of` answers s' /\ index s <= index s'.
Proof.
  revert SESSIONS s. induction trace as [|[o r] trace IH]; intros S s Hs.
  - exists s. simpl. split; [done|]. split; [done|]. split; [done | lia].
  - destruct (store_after_extends o r S session_id s Hs) as (s1 & Hs1 & Hq1 & Ha1 & Hi1).
    destruct (IH _ _ Hs1) as (s' & Hs' & Hq & Ha & Hi).
    exists s'. split; [exact Hs'|]. split; [congruence|].
    split; [by etrans | lia].
Qed.

Lemma run_extends_witness :
  exists s,
    fresh_store !! client = Some s /\
    exists s',
      run (replicate 3 (endpoint_down, POST_answer client (answer_body (u "yes"))))
          fresh_store !! client = Some s' /\
      questions s' = questions s /\
      answers s `prefix_of` answers s' /\ index s <= index s'.
Proof.
  eexists. split; [vm_compute; reflexivity|].
  apply (run_extends _ fresh_store client). vm_compute; reflexivity.
Defined.

(* ===================================================================== *)
(** ** Further properties: the recorded answers *)
(* ===================================================================== *)

Lemma record_answer_answers_ok (s : session) (rec : answer_record) (text : pystr) :
  session_ok s -> answers_ok s ->
  list_getitem (questions s) (index s) = Ok (a_question rec) ->
  a_answer rec = strip text -> a_answer rec <> [] ->
  answers_ok (record_answer s rec).
Proof.
  intros [Hlen Hidx] Hok Hq Htext Hne i r. simpl.
  intros [[Hi Hr] | [-> <-]]%lookup_snoc_Some.
  - by apply Hok.
  - apply list_getitem_Ok in Hq as [_ Hq]; [|lia].
    unfold len in Hlen. rewrite <- Hlen, Nat2Z.id in Hq.
    split; [done|]. split; [done|]. rewrite Htext. apply strip_trimmed.
Qed.

Lemma reachable_answers_ok (SESSIONS : gmap string session) :
  reachable SESSIONS ->
  forall session_id s, SESSIONS !! session_id = Some s -> answers_ok s.
Proof.
  induction 1 as [|o r S Hreach IH]; intros id s' Hs'.
  { by rewrite lookup_empty in Hs'. }
  destruct (store_after_detail o r S)
    as [Heq | [(sel & _ & _ & _ & Heq) | (s & rec & text & Hs & Hq & Ht & Hne & Heq)]];
    rewrite Heq in Hs'.
  - by apply (IH id).
  - destruct (decide (request_addr r = id)) as [Haddr|Haddr].
    + rewrite Haddr, lookup_insert_eq in Hs'. injection Hs' as <-.
      intros i rec. simpl. by rewrite lookup_nil.
    + rewrite lookup_insert_ne in Hs' by done. by apply (IH id).
  - destruct (decide (request_addr r = id)) as [Haddr|Haddr].
    + rewrite Haddr in *. rewrite lookup_insert_eq in Hs'. injection Hs' as <-.
      destruct (reachable_ok _ Hreach _ _ Hs) as [Hs_ok _].
      eapply record_answer_answers_ok; eauto.
    + rewrite lookup_insert_ne in Hs' by done. by apply (IH id).
Qed.

(** The questions of the recorded answers are the first questions of the
    session, in order. *)
Lemma recorded_questions (s : session) :
  session_ok s -> answers_ok s ->
  a_question <$> answers s = take (length (answers s)) (questions s).
Proof.
  intros [Hlen Hidx] Hok. apply list_eq. intros i.
  rewrite list_lookup_fmap.
  destruct (answers s !! i) as [r|] eqn:Hr; simpl.
  - destruct (Hok i r Hr) as [Hq _].
    rewrite lookup_take_lt by (by eapply lookup_lt_Some). by rewrite Hq.
  - apply lookup_ge_None in Hr. by rewrite lookup_take_ge.
Qed.

(** X4.  In every dictionary the process can hold, the [i]th recorded answer
    of a session holds the [i]th question of the session, and its answer is
    not empty and neither starts nor ends with white space (it is its own
    [strip]). *)
Theorem recorded_answers_follow_questions (SESSIONS : gmap string session)
    (session_id : string) (s : session) (i : nat) (r : answer_record) :
  reachable SESSIONS ->
  SESSIONS !! session_id = Some s ->
  answers s !! i = Some r ->
  questions s !! i = Some (a_question r) /\
  a_answer r <> [] /\ trimmed (a_answer r) /\ strip (a_answer r) = a_answer r.
Proof.
  intros Hreach Hs Hr.
  destruct (reachable_answers_ok _ Hreach _ _ Hs i r Hr) as (Hq & Hne & Ht).
  split; [done|]. split; [done|]. split; [done|]. by apply strip_of_trimmed.
Qed.

Lemma recorded_answers_follow_questions_witness :
  exists s r,
    two_clients_store !! client = Some s /\
    answers s !! 2%nat = Some r /\
    a_answer r = u "yes" /\
    questions s !! 2%nat = Some (a_question r) /\
    a_answer r <> [] /\ trimmed (a_answer r) /\ strip (a_answer r) = a_answer r.
Proof.
  eexists _, _. split; [vm_compute; reflexivity|].
  split; [vm_compute; reflexivity|]. split; [vm_compute; reflexivity|].
  apply (recorded_answers_follow_questions two_clients_store client _ 2);
    [apply reachable_run, reachable_fresh_store
    | vm_compute; reflexivity | vm_compute; reflexivity].
Defined.

(** X5.  In every dictionary the process can hold, the questions a session
    has recorded answers to are the first questions of the session, no
    question twice; once the session is complete ([index] has reached
    [len(questions)]) they are the pool's questions, each exactly once. *)
Theorem questions_asked_once (SESSIONS : gmap string session)
    (session_id : string) (s : session) :
  reachable SESSIONS ->
  SESSIONS !! session_id = Some s ->
  (a_question <$> answers s) `prefix_of` questions s /\
  NoDup (a_question <$> answers s) /\
  (index s = len (questions s) -> a_question <$> answers s ≡ₚ QUESTIONS).
Proof.
  intros Hreach Hs.
  destruct (reachable_ok _ Hreach _ _ Hs) as [Hs_ok Hperm].
  pose proof (reachable_answers_ok _ Hreach _ _ Hs) as Ha_ok.
  rewrite (recorded_questions s Hs_ok Ha_ok).
  assert (Hnd : NoDup (questions s)) by (rewrite Hperm; apply NoDup_QUESTIONS).
  split; [|split].
  - eexists. symmetry. apply take_drop.
  - rewrite <- (take_drop (length (answers s)) (questions s)) in Hnd.
    by apply NoDup_app in Hnd as [? _].
  - intros Hdone. destruct Hs_ok as [Hlen _]. unfold len in *.
    rewrite take_ge by lia. done.
Qed.

Lemma questions_asked_once_witness :
  exists s,
    completed_store !! client = Some s /\
    (a_question <$> answers s) `prefix_of` questions s /\
    NoDup (a_question <$> answers s) /\
    (index s = len (questions s) -> a_question <$> answers s ≡ₚ QUESTIONS).
Proof.
  eexists. split; [vm_compute; reflexivity|].
  apply (questions_asked_once completed_store client);
    [apply reachable_completed_store | vm_compute; reflexivity].
Defined.

(* ===================================================================== *)
(** ** Further properties: the replies of the two routes *)
(* ===================================================================== *)

Lemma len_questions_ok (SESSIONS : gmap string session) session_id s :
  reachable SESSIONS -> SESSIONS !! session_id = Some s ->
  len (questions s) = 30 /\ len (answers s) = index s /\ 0 <= index s <= 30.
Proof.
  intros Hreach Hs. destruct (reachable_ok _ Hreach _ _ Hs) as [[Hl Hi] Hperm].
  assert (Hq : len (questions s) = 30) by (unfold len; by rewrite Hperm).
  rewrite Hq in Hi. done.
Qed.

Lemma list_getitem_Raise_end {A} (l : list A) (i : Z) (e : exn) :
  0 <= i <= len l -> list_getitem l i = Raise e -> i = len l.
Proof.
  intros Hi Hr. destruct (decide (i = len l)) as [|Hne]; [done|].
  destruct (list_getitem_in_range l i ltac:(lia)) as [x Hx]. congruence.
Qed.

(** The reply of [next_question] from the session it finds or creates. *)
Lemma next_question_reply_of (o : outside) (remote_addr : string)
    (SESSIONS SESSIONS' : gmap string session) (s : session) :
  get_or_create o remote_addr SESSIONS = Ok (s, SESSIONS') ->
  len (questions s) = 30 -> 0 <= index s <= 30 ->
  (next_question o remote_addr SESSIONS).2 = SESSIONS' /\
  ((index s = 30 /\
    (next_question o remote_addr SESSIONS).1 =
      Returned (JObj [(u "done", JBool true)]) 200) \/
   (exists question,
      index s < 30 /\
      questions s !! Z.to_nat (index s) = Some question /\
      (next_question o remote_addr SESSIONS).1 =
        Returned (JObj [(u "question", JStr question);
                        (u "index", JInt (index s + 1));
                        (u "total", JInt 30);
                        (u "done", JBool false)]) 200)).
Proof.
  intros Hget Hq Hi. unfold next_question. rewrite Hget, Hq.
  destruct (30 <=? index s) eqn:Hdone.
  - apply Z.leb_le in Hdone. split; [done|]. left. split; [lia | done].
  - apply Z.leb_gt in Hdone.
    destruct (list_getitem_in_range (questions s) (index s) ltac:(lia))
      as [question Hx].
    rewrite Hx. split; [done|]. right. exists question. split; [done|].
    apply list_getitem_Ok in Hx as [_ Hx]; [|lia]. done.
Qed.

(** X6.  [GET /next] never fails: from every dictionary the process can
    hold and for every address it returns status 200, with [{"done": true}]
    when the caller's session is complete, and otherwise with the question
    under the cursor, which is one of the pool, its number [index + 1] and
    [total: 30]. *)
Theorem next_question_reply (o : outside) (remote_addr : string)
    (SESSIONS : gmap string session) :
  reachable SESSIONS ->
  exists s,
    (next_question o remote_addr SESSIONS).2 !! remote_addr = Some s /\
    ((index s = 30 /\
      (next_question o remote_addr SESSIONS).1 =
        Returned (JObj [(u "done", JBool true)]) 200) \/
     (exists question,
        0 <= index s < 30 /\
        questions s !! Z.to_nat (index s) = Some question /\
        question ∈ QUESTIONS /\
        (next_question o remote_addr SESSIONS).1 =
          Returned (JObj [(u "question", JStr question);
                          (u "index", JInt (index s + 1));
                          (u "total", JInt 30);
                          (u "done", JBool false)]) 200)).
Proof.
  intros Hreach.
  assert (Hget : exists s S',
             get_or_create o remote_addr SESSIONS = Ok (s, S') /\
             S' !! remote_addr = Some s /\ questions s ≡ₚ QUESTIONS /\
             len (questions s) = 30 /\ 0 <= index s <= 30).
  { destruct (SESSIONS !! remote_addr) as [s|] eqn:Hs.
    - exists s, SESSIONS. rewrite (get_or_create_old _ _ _ _ Hs).
      destruct (reachable_ok _ Hreach _ _ Hs) as [_ Hperm].
      destruct (len_questions_ok _ _ _ Hreach Hs) as (? & _ & ?). done.
    - destruct (get_or_create_new o _ _ Hs) as (sel & -> & Hperm).
      eexists _, _. split; [done|]. rewrite lookup_insert_eq.
      split; [done|]. split; [done|]. simpl.
      split; [unfold len; by rewrite Hperm | lia]. }
  destruct Hget as (s & S' & Hget & Hs' & Hperm & Hq & Hi).
  destruct (next_question_reply_of o _ _ _ _ Hget Hq Hi) as [-> Hrep].
  exists s. split; [done|].
  destruct Hrep as [?|(question & Hlt & Hx & Hrep)]; [by left|].
  right. exists question. split; [lia|]. split; [done|]. split; [|done].
  rewrite <- Hperm. by eapply list_elem_of_lookup_2.
Qed.

Lemma next_question_reply_witness :
  exists s,
    (next_question endpoint_down other_client fresh_store).2 !! other_client =
      Some s /\
    ((index s = 30 /\
      (next_question endpoint_down other_client fresh_store).1 =
        Returned (JObj [(u "done", JBool true)]) 200) \/
     (exists question,
        0 <= index s < 30 /\
        questions s !! Z.to_nat (index s) = Some question /\
        question ∈ QUESTIONS /\
        (next_question endpoint_down other_client fresh_store).1 =
          Returned (JObj [(u "question", JStr question);
                          (u "index", JInt (index s + 1));
                          (u "total", JInt 30);
                          (u "done", JBool false)]) 200)).
Proof.
  apply next_question_reply. apply reachable_fresh_store.
Defined.

(** X7.  Every outcome of [POST /answer] from a dictionary the process can
    hold.  Status 400 comes with no session or an answer that strips to
    nothing; status 200 comes with a session that is not complete and an
    answer that is not empty; an exception is [BadRequest] or
    [AttributeError] from reading the body, or [IndexError] when the session
    is complete.  Unless the status is 200, the dictionary is left as it was
    and nothing is sent to the endpoint. *)
Theorem handle_answer_outcome (o : outside) (remote_addr : string)
    (body : option json) (SESSIONS : gmap string session) :
  reachable SESSIONS ->
  (exists rep_body,
     handle_answer o remote_addr body SESSIONS =
       (Returned rep_body 400, SESSIONS, []) /\
     (SESSIONS !! remote_addr = None \/ posted_answer body = Ok [])) \/
  (exists rep_body s answer,
     (handle_answer o remote_addr body SESSIONS).1.1 = Returned rep_body 200 /\
     SESSIONS !! remote_addr = Some s /\ index s < len (questions s) /\
     posted_answer body = Ok answer /\ answer <> []) \/
  (exists e s,
     handle_answer o remote_addr body SESSIONS = (Raised e, SESSIONS, []) /\
     SESSIONS !! remote_addr = Some s /\
     (posted_answer body = Raise e /\ (e = BadRequest \/ e = AttributeError) \/
      e = IndexError /\ index s = len (questions s) /\
      exists answer, posted_answer body = Ok answer /\ answer <> [])).
Proof.
  intros Hreach.
  destruct (handle_answer_cases o remote_addr body SESSIONS)
    as [[Hnone ->] | (s & Hs & [(e & Ha & ->) | [[Ha ->] | (answer & Ha & Hne & H)]])].
  - left. eauto.
  - right. right. exists e, s. split; [done|]. split; [done|]. left.
    split; [done|]. by eapply posted_answer_Raise.
  - left. eauto.
  - destruct (reachable_ok _ Hreach _ _ Hs) as [[_ Hi] _].
    destruct H as [[Hq ->] | (question & verdict & events & Hq & _ & ->)].
    + right. right. exists IndexError, s. split; [done|]. split; [done|]. right.
      split; [done|]. split; [by eapply list_getitem_Raise_end | eauto].
    + right. left. apply list_getitem_Ok in Hq as [Hlt _]; [|lia].
      eexists _, s, answer. done.
Qed.

Lemma handle_answer_outcome_witness :
  (exists rep_body,
     handle_answer endpoint_down client (answer_body (u "yes")) completed_store =
       (Returned rep_body 400, completed_store, []) /\
     (completed_store !! client = None \/
      posted_answer (answer_body (u "yes")) = Ok [])) \/
  (exists rep_body s answer,
     (handle_answer endpoint_down client (answer_body (u "yes"))
        completed_store).1.1 = Returned rep_body 200 /\
     completed_store !! client = Some s /\ index s < len (questions s) /\
     posted_answer (answer_body (u "yes")) = Ok answer /\ answer <> []) \/
  (exists e s,
     handle_answer endpoint_down client (answer_body (u "yes")) completed_store =
       (Raised e, completed_store, []) /\
     completed_store !! client = Some s /\
     (posted_answer (answer_body (u "yes")) = Raise e /\
      (e = BadRequest \/ e = AttributeError) \/
      e = IndexError /\ index s = len (questions s) /\
      exists answer, posted_answer (answer_body (u "yes")) = Ok answer /\
                     answer <> [])).
Proof.
  apply handle_answer_outcome. apply reachable_completed_store.
Defined.

(** X8.  [POST /answer] calls the endpoint exactly when it records an
    answer, and then once: either nothing is sent and the dictionary is left
    as it was, or the session exists, the stripped answer is not empty, and
    the one call carries the question under the cursor and the stripped
    answer, followed by one printed line when the call failed. *)
Theorem handle_answer_calls (o : outside) (remote_addr : string)
    (body : option json) (SESSIONS : gmap string session) :
  ((handle_answer o remote_addr body SESSIONS).2 = [] /\
   (handle_answer o remote_addr body SESSIONS).1.2 = SESSIONS) \/
  (exists s question answer,
     SESSIONS !! remote_addr = Some s /\
     list_getitem (questions s) (index s) = Ok question /\
     posted_answer body = Ok answer /\ answer <> [] /\
     (exists verdict,
        (handle_answer o remote_addr body SESSIONS).1.2 !! remote_addr =
          Some (record_answer s {| a_question := question; a_answer := answer;
                                   a_verdict := verdict |})) /\
     ((handle_answer o remote_addr body SESSIONS).2 =
        [Requests_post question answer] \/
      exists e, (handle_answer o remote_addr body SESSIONS).2 =
                  [Requests_post question answer; Print_error e])).
Proof.
  destruct (handle_answer_cases o remote_addr body SESSIONS)
    as [[_ ->] | (s & Hs & [(e & _ & ->) | [[_ ->] | (answer & Ha & Hne & H)]])];
    [by left | by left | by left |].
  destruct H as [[_ ->] | (question & verdict & events & Hq & Hv & ->)];
    [by left|].
  right. exists s, question, answer. split; [done|]. split; [done|].
  split; [done|]. split; [done|]. split.
  - exists verdict. apply lookup_insert_eq.
  - pose proof (ask_groq_events o question answer) as He.
    rewrite Hv in He. exact He.
Qed.

(** X9.  A reply with status 200 tells what was recorded: from a
    dictionary the process can hold, its [verdict] is the verdict of the
    last recorded answer, its [progress] is the number of recorded answers,
    between 1 and 30, its [done] says whether that number is 30, and its
    [summary] is null before that and the summary of the recorded answers
    then. *)
Theorem accepted_reply (o : outside) (remote_addr : string)
    (body : option json) (SESSIONS : gmap string session) (rep_body : json) :
  reachable SESSIONS ->
  (handle_answer o remote_addr body SESSIONS).1.1 = Returned rep_body 200 ->
  exists s' r,
    (handle_answer o remote_addr body SESSIONS).1.2 !! remote_addr = Some s' /\
    last (answers s') = Some r /\
    reply_field (u "verdict") (Returned rep_body 200) =
      Some (JStr (a_verdict r)) /\
    reply_field (u "progress") (Returned rep_body 200) =
      Some (JInt (len (answers s'))) /\
    1 <= len (answers s') <= 30 /\
    reply_field (u "done") (Returned rep_body 200) =
      Some (JBool (bool_decide (len (answers s') = 30))) /\
    reply_field (u "summary") (Returned rep_body 200) =
      Some (if bool_decide (len (answers s') = 30)
            then summary (answers s') else JNull).
Proof.
  intros Hreach Hrep.
  destruct (handle_answer_cases o remote_addr body SESSIONS)
    as [[_ H] | (s & Hs & [(e & _ & H) | [[_ H] | (answer & Ha & Hne & H)]])];
    try (rewrite H in Hrep; simpl in Hrep; discriminate).
  destruct H as [[_ H] | (question & verdict & events & Hq & Hv & H)];
    [rewrite H in Hrep; discriminate|].
  rewrite H in Hrep |- *. cbn [fst snd] in *. injection Hrep as <-.
  destruct (len_questions_ok _ _ _ Hreach Hs) as (Hlq & Hla & Hi).
  apply list_getitem_Ok in Hq as [Hlt _]; [|lia].
  set (rec := {| a_question := question; a_answer := answer;
                 a_verdict := verdict |}).
  assert (Hlen : len (answers s ++ [rec]) = index s + 1).
  { unfold len in *. rewrite length_app. simpl. lia. }
  assert (Hdone : (len (questions s) <=? index s + 1) =
                  bool_decide (len (answers s ++ [rec]) = 30)).
  { rewrite Hlq, Hlen. case_bool_decide; [apply Z.leb_le | apply Z.leb_gt]; lia. }
  exists (record_answer s rec), rec. split; [apply lookup_insert_eq|].
  split; [apply last_snoc|]. simpl answers. rewrite Hdone, <- Hlen.
  match goal with |- context [Returned (JObj [(_, ?v); (_, ?p); (_, ?d); (_, ?sm)]) ?st] =>
    destruct (reply_fields v p d sm st) as (Hfv & Hfp & Hfd & Hfs) end.
  split; [exact Hfv|]. split; [exact Hfp|]. split; [lia|].
  split; [exact Hfd | exact Hfs].
Qed.

Lemma accepted_reply_witness :
  exists rep_body s' r,
    (handle_answer endpoint_down client (answer_body (u "yes"))
       unlabelled_store).1.1 = Returned rep_body 200 /\
    (handle_answer endpoint_down client (answer_body (u "yes"))
       unlabelled_store).1.2 !! client = Some s' /\
    last (answers s') = Some r /\
    reply_field (u "verdict") (Returned rep_body 200) =
      Some (JStr (a_verdict r)) /\
    reply_field (u "progress") (Returned rep_body 200) =
      Some (JInt (len (answers s'))) /\
    1 <= len (answers s') <= 30 /\
    reply_field (u "done") (Returned rep_body 200) =
      Some (JBool (bool_decide (len (answers s') = 30))) /\
    reply_field (u "summary") (Returned rep_body 200) =
      Some (if bool_decide (len (answers s') = 30)
            then summary (answers s') else JNull).
Proof.
  assert (Hrep : exists b,
             (handle_answer endpoint_down client (answer_body (u "yes"))
                unlabelled_store).1.1 = Returned b 200).
  { eexists. vm_compute. reflexivity. }
  destruct Hrep as [b Hrep].
  destruct (accepted_reply endpoint_down client (answer_body (u "yes"))
              unlabelled_store b reachable_unlabelled_store Hrep)
    as (s' & r & H).
  exists b, s', r. split; [exact Hrep | exact H].
Defined.

(** X10.  [GET /next] after an accepted answer: from a dictionary the
    process can hold, when [POST /answer] replies with status 200 and
    [progress: p], the caller's next [GET /next] changes nothing and returns
    [{"done": true}] when [p] is 30, and question number [p + 1] of 30
    otherwise. *)
Theorem next_after_answer (o o' : outside) (remote_addr : string)
    (body : option json) (SESSIONS : gmap string session) (rep_body : json) :
  reachable SESSIONS ->
  (handle_answer o remote_addr body SESSIONS).1.1 = Returned rep_body 200 ->
  exists p,
    reply_field (u "progress") (Returned rep_body 200) = Some (JInt p) /\
    (next_question o' remote_addr
       (handle_answer o remote_addr body SESSIONS).1.2).2 =
      (handle_answer o remote_addr body SESSIONS).1.2 /\
    ((p = 30 /\
      (next_question o' remote_addr
         (handle_answer o remote_addr body SESSIONS).1.2).1 =
        Returned (JObj [(u "done", JBool true)]) 200) \/
     (exists question,
        p < 30 /\
        (next_question o' remote_addr
           (handle_answer o remote_addr body SESSIONS).1.2).1 =
          Returned (JObj [(u "question", JStr question);
                          (u "index", JInt (p + 1));
                          (u "total", JInt 30);
                          (u "done", JBool false)]) 200)).
Proof.
  intros Hreach Hrep.
  assert (Hreach' : reachable (handle_answer o remote_addr body SESSIONS).1.2).
  { apply (reachable_serve o (POST_answer remote_addr body) _ Hreach). }
  destruct (handle_answer_cases o remote_addr body SESSIONS)
    as [[_ H] | (s & Hs & [(e & _ & H) | [[_ H] | (answer & Ha & Hne & H)]])];
    try (rewrite H in Hrep; simpl in Hrep; discriminate).
  destruct H as [[_ H] | (question & verdict & events & Hq & Hv & H)];
    [rewrite H in Hrep; discriminate|].
  rewrite H in Hrep, Hreach' |- *. cbn [fst snd] in *. injection Hrep as <-.
  set (s' := record_answer s _) in *.
  set (S' := <[remote_addr := s']> SESSIONS) in *.
  assert (Hs' : S' !! remote_addr = Some s') by apply lookup_insert_eq.
  destruct (len_questions_ok _ _ _ Hreach' Hs') as (Hlq & _ & Hi).
  destruct (next_question_reply_of o' remote_addr S' S' s'
              (get_or_create_old _ _ _ _ Hs') Hlq Hi) as [Hstore Hnext].
  exists (index s + 1). split; [|split; [exact Hstore|]].
  - match goal with |- context [Returned (JObj [(_, ?v); (_, ?p); (_, ?d); (_, ?sm)]) ?st] =>
      destruct (reply_fields v p d sm st) as (_ & Hfp & _ & _) end.
    exact Hfp.
  - destruct Hnext as [[Hdone Hr] | (q & Hlt & _ & Hr)].
    + left. split; [exact Hdone | exact Hr].
    + right. exists q. split; [exact Hlt | exact Hr].
Qed.

Lemma next_after_answer_witness :
  exists rep_body p,
    (handle_answer endpoint_down client (answer_body (u "yes"))
       fresh_store).1.1 = Returned rep_body 200 /\
    reply_field (u "progress") (Returned rep_body 200) = Some (JInt p) /\
    (next_question endpoint_down client
       (handle_answer endpoint_down client (answer_body (u "yes"))
          fresh_store).1.2).2 =
      (handle_answer endpoint_down client (answer_body (u "yes"))
         fresh_store).1.2 /\
    ((p = 30 /\
      (next_question endpoint_down client
         (handle_answer endpoint_down client (answer_body (u "yes"))
            fresh_store).1.2).1 =
        Returned (JObj [(u "done", JBool true)]) 200) \/
     (exists question,
        p < 30 /\
        (next_question endpoint_down client
           (handle_answer endpoint_down client (answer_body (u "yes"))
              fresh_store).1.2).1 =
          Returned (JObj [(u "question", JStr question);
                          (u "index", JInt (p + 1));
                          (u "total", JInt 30);
                          (u "done", JBool false)]) 200)).
Proof.
  assert (Hrep : exists b,
             (handle_answer endpoint_down client (answer_body (u "yes"))
                fresh_store).1.1 = Returned b 200).
  { eexists. vm_compute. reflexivity. }
  destruct Hrep as [b Hrep].
  destruct (next_after_answer endpoint_down endpoint_down client
              (answer_body (u "yes")) fresh_store b reachable_fresh_store Hrep)
    as (p & H).
  exists b, p. split; [exact Hrep | exact H].
Defined.

(* ===================================================================== *)
(** ** Further properties: verdicts and the percentage *)
(* ===================================================================== *)

Lemma one_label_VERDICTS (question answer verdict : pystr) :
  verdict ∈ VERDICTS ->
  one_label {| a_question := question; a_answer := answer; a_verdict := verdict |}.
Proof.
  unfold VERDICTS. rewrite !elem_of_cons, elem_of_nil.
  intros [-> | [-> | [-> | []]]]; vm_compute; reflexivity.
Qed.

(** X11.  A verdict of the fallback is counted once: when the request to
    the endpoint fails, the verdict [ask_groq] returns contains exactly one
    of the three labels (no label occurs inside another), so the final tally
    counts it under one label only. *)
Theorem fallback_counted_once (o : outside) (question answer : pystr) :
  failed (post o) ->
  exists verdict,
    (ask_groq o question answer).1 = Ok verdict /\
    one_label {| a_question := question; a_answer := answer;
                 a_verdict := verdict |}.
Proof.
  intros [e He]%ask_groq_try_failed. unfold ask_groq. rewrite He.
  destruct (choice_VERDICTS (rand o)) as (verdict & Hc & Hv).
  exists verdict. split; [exact Hc|].
  apply one_label_VERDICTS. by eapply list_elem_of_lookup_2.
Qed.

Lemma fallback_counted_once_witness :
  exists verdict,
    (ask_groq (endpoint_says 503 (u "Truthful ✅ and Lying 🤥"))
       (u "Do you always tell the truth?") (u "yes")).1 = Ok verdict /\
    one_label {| a_question := u "Do you always tell the truth?";
                 a_answer := u "yes"; a_verdict := verdict |}.
Proof.
  apply fallback_counted_once. left. lia.
Defined.

Lemma mentions_bounds (label : pystr) (recorded : list answer_record) :
  0 <= mentions label recorded <= len recorded.
Proof.
  unfold mentions, len.
  pose proof (length_filter (fun a => contains (a_verdict a) label) recorded).
  lia.
Qed.

(** Out of 30, the percentage of line 140 and the rounded ratio agree. *)
Lemma percent_of_thirty (c : Z) :
  0 <= c <= 30 ->
  round1 (PrimFloat.mul (truediv c 30) (float_of_int 100)) =
    round1 (truediv (100 * c) 30).
Proof.
  intros Hc. assert (Hin : c ∈ seqZ 0 31) by (apply elem_of_seqZ; lia).
  let l := eval vm_compute in (seqZ 0 31) in change (seqZ 0 31) with l in Hin.
  repeat (apply elem_of_cons in Hin as [-> | Hin]; [vm_compute; reflexivity|]).
  by apply elem_of_nil in Hin.
Qed.

Lemma code_honesty_percent_thirty (c su l : Z) :
  0 <= c <= 30 -> c + su + l = 30 ->
  code_honesty_percent c su l = JFloat (round1 (truediv (100 * c) 30)).
Proof.
  intros Hc Hsum. unfold code_honesty_percent. cbv zeta. rewrite Hsum.
  change (0 <? 30) with true. cbv iota. f_equal. by apply percent_of_thirty.
Qed.

(** X12.  When every recorded verdict contains exactly one label, the
    percentage is the one the number of answers gives: for a session of a
    reachable dictionary that holds 29 answers, the reply to the next
    accepted answer has [honesty_percent] equal to
    [round(100 * truthful_count / 30, 1)], [truthful_count] being the number
    of recorded verdicts that contain the truthful label. *)
Theorem honesty_percent_one_label (o : outside) (remote_addr : string)
    (body : option json) (SESSIONS : gmap string session) (s : session)
    (answer : pystr) :
  reachable SESSIONS ->
  SESSIONS !! remote_addr = Some s -> index s = 29 ->
  posted_answer body = Ok answer -> answer <> [] ->
  exists s',
    (handle_answer o remote_addr body SESSIONS).1.2 !! remote_addr = Some s' /\
    len (answers s') = 30 /\
    (Forall one_label (answers s') ->
     reply_honesty_percent (handle_answer o remote_addr body SESSIONS).1.1 =
       Some (JFloat (round1 (truediv (100 * mentions TRUTHFUL (answers s')) 30))) /\
     reply_honesty_percent (handle_answer o remote_addr body SESSIONS).1.1 =
       Some (spec_honesty_percent (answers s'))).
Proof.
  intros Hreach Hs Hidx Ha Hne.
  destruct (len_questions_ok _ _ _ Hreach Hs) as (Hlq & Hla & Hi).
  destruct (handle_answer_completes o _ _ _ _ _ Hs Ha Hne ltac:(lia) ltac:(lia))
    as (s' & rep_body & -> & Hs' & _ & _ & Hl & _ & _ & Hsm).
  assert (Hl30 : len (answers s') = 30) by lia.
  exists s'. split; [done|]. split; [done|]. intros Hone.
  pose proof (mentions_one_label _ Hone) as Hsum. rewrite Hl30 in Hsum.
  pose proof (mentions_bounds TRUTHFUL (answers s')) as Hc. rewrite Hl30 in Hc.
  assert (Hhp : reply_honesty_percent (Returned rep_body 200) =
                Some (JFloat (round1 (truediv (100 * mentions TRUTHFUL (answers s')) 30)))).
  { unfold reply_honesty_percent. rewrite Hsm, summary_eq.
    rewrite (proj2 (summary_fields _ _)).
    by rewrite (code_honesty_percent_thirty _ _ _ Hc Hsum). }
  split; [exact Hhp|]. rewrite Hhp. unfold spec_honesty_percent. cbv zeta.
  rewrite Hl30. done.
Qed.

Lemma honesty_percent_one_label_witness :
  exists s',
    (handle_answer endpoint_down client (answer_body (u "yes"))
       (run (replicate 29 (endpoint_down, POST_answer client (answer_body (u "yes"))))
            fresh_store)).1.2 !! client = Some s' /\
    len (answers s') = 30 /\
    (Forall one_label (answers s') ->
     reply_honesty_percent
       (handle_answer endpoint_down client (answer_body (u "yes"))
          (run (replicate 29 (endpoint_down, POST_answer client (answer_body (u "yes"))))
               fresh_store)).1.1 =
       Some (JFloat (round1 (truediv (100 * mentions TRUTHFUL (answers s')) 30))) /\
     reply_honesty_percent
       (handle_answer endpoint_down client (answer_body (u "yes"))
          (run (replicate 29 (endpoint_down, POST_answer client (answer_body (u "yes"))))
               fresh_store)).1.1 =
       Some (spec_honesty_percent (answers s'))).
Proof.
  eapply (honesty_percent_one_label _ client _ _ _ (u "yes"));
    [apply reachable_run, reachable_fresh_store | vm_compute; reflexivity
    | vm_compute; reflexivity | vm_compute; reflexivity | discriminate].
Defined.

(** For every count [c] out of a total [t] of at most 90, the rounded
    percentage lies between 0 and 100 (all cases, evaluated). *)
Lemma percent_table :
  forallb
    (fun t =>
       forallb
         (fun c =>
            let x := round1 (PrimFloat.mul (truediv c t) (float_of_int 100)) in
            PrimFloat.leb (float_of_int 0) x && PrimFloat.leb x (float_of_int 100))
         (seqZ 0 (t + 1)))
    (seqZ 1 90) = true.
Proof. vm_compute. reflexivity. Qed.

Lemma code_honesty_percent_ok (c su l : Z) :
  0 <= c <= 30 -> 0 <= su <= 30 -> 0 <= l <= 30 ->
  percent_ok (code_honesty_percent c su l).
Proof.
  intros Hc Hsu Hl. unfold code_honesty_percent, percent_ok. cbv zeta.
  destruct (0 <? c + su + l) eqn:Hpos; [|by left].
  apply Z.ltb_lt in Hpos. right. eexists. split; [done|].
  pose proof percent_table as Htab.
  rewrite forallb_forall in Htab.
  assert (Ht : In (c + su + l) (seqZ 1 90))
    by (apply list_elem_of_In, elem_of_seqZ; lia).
  specialize (Htab (c + su + l) Ht).
  rewrite forallb_forall in Htab.
  assert (Hin : In c (seqZ 0 (c + su + l + 1)))
    by (apply list_elem_of_In, elem_of_seqZ; lia).
  specialize (Htab c Hin). cbv zeta in Htab.
  by apply andb_prop.
Qed.

(** X13.  The percentage of a completed session is a percentage: for a
    session of a reachable dictionary that holds 29 answers, the reply to
    the next accepted answer has an [honesty_percent] that is the integer 0
    or a [float] between 0.0 and 100.0, whatever the verdicts are. *)
Theorem honesty_percent_range (o : outside) (remote_addr : string)
    (body : option json) (SESSIONS : gmap string session) (s : session)
    (answer : pystr) :
  reachable SESSIONS ->
  SESSIONS !! remote_addr = Some s -> index s = 29 ->
  posted_answer body = Ok answer -> answer <> [] ->
  exists hp,
    reply_honesty_percent (handle_answer o remote_addr body SESSIONS).1.1 =
      Some hp /\
    percent_ok hp.
Proof.
  intros Hreach Hs Hidx Ha Hne.
  destruct (len_questions_ok _ _ _ Hreach Hs) as (Hlq & Hla & Hi).
  destruct (handle_answer_completes o _ _ _ _ _ Hs Ha Hne ltac:(lia) ltac:(lia))
    as (s' & rep_body & -> & Hs' & _ & _ & Hl & _ & _ & Hsm).
  assert (Hl30 : len (answers s') = 30) by lia.
  eexists. split.
  - unfold reply_honesty_percent. rewrite Hsm, summary_eq.
    apply (proj2 (summary_fields _ _)).
  - pose proof (mentions_bounds TRUTHFUL (answers s')).
    pose proof (mentions_bounds SUSPICIOUS (answers s')).
    pose proof (mentions_bounds LYING (answers s')).
    apply code_honesty_percent_ok; lia.
Qed.

Lemma honesty_percent_range_witness :
  exists hp,
    reply_honesty_percent
      (handle_answer (endpoint_says 200 (u "Truthful ✅ or Lying 🤥")) client
         (answer_body (u "yes")) unlabelled_store).1.1 = Some hp /\
    percent_ok hp.
Proof.
  eapply (honesty_percent_range _ client _ unlabelled_store _ (u "yes"));
    [apply reachable_unlabelled_store | vm_compute; reflexivity
    | vm_compute; reflexivity | vm_compute; reflexivity | discriminate].
Defined.

(* ===================================================================== *)
(** ** Further properties: bodies and completions *)
(* ===================================================================== *)

(** X14.  Bodies [POST /answer] cannot read: for a client that has a
    session, a body that is not JSON makes [handle_answer] raise
    [BadRequest]; a JSON body that is not an object, or an object whose
    [answer] is not a string, makes it raise [AttributeError].  In each
    case the dictionary is left as it was and nothing is sent to the
    endpoint. *)
Theorem handle_answer_bad_body (o : outside) (remote_addr : string)
    (SESSIONS : gmap string session) (s : session) :
  SESSIONS !! remote_addr = Some s ->
  handle_answer o remote_addr None SESSIONS = (Raised BadRequest, SESSIONS, []) /\
  (forall data,
     (forall fields, data <> JObj fields) ->
     handle_answer o remote_addr (Some data) SESSIONS =
       (Raised AttributeError, SESSIONS, [])) /\
  (forall fields v,
     assoc (u "answer") fields = Some v ->
     (forall text, v <> JStr text) ->
     handle_answer o remote_addr (Some (JObj fields)) SESSIONS =
       (Raised AttributeError, SESSIONS, [])).
Proof.
  intros Hs. unfold handle_answer, posted_answer. rewrite Hs.
  split; [done|]. split.
  - intros data Hdata. destruct data; try done. by destruct (Hdata fields).
  - intros fields v Hv Hstr. simpl. rewrite Hv. simpl.
    destruct v; try done. by destruct (Hstr s0).
Qed.

Lemma handle_answer_bad_body_witness :
  handle_answer endpoint_down client None fresh_store =
    (Raised BadRequest, fresh_store, []) /\
  handle_answer endpoint_down client (Some (JArr [JStr (u "yes")])) fresh_store =
    (Raised AttributeError, fresh_store, []) /\
  handle_answer endpoint_down client
    (Some (JObj [(u "answer", JInt 5)])) fresh_store =
    (Raised AttributeError, fresh_store, []).
Proof.
  assert (Hs : exists s, fresh_store !! client = Some s).
  { eexists. vm_compute. reflexivity. }
  destruct Hs as [s Hs].
  destruct (handle_answer_bad_body endpoint_down client fresh_store s Hs)
    as (H1 & H2 & H3).
  split; [exact H1|]. split.
  - apply H2. discriminate.
  - apply (H3 _ (JInt 5)); [reflexivity | discriminate].
Defined.

(** X15.  A completion is passed through: when the endpoint answers with a
    status that is not 4xx or 5xx and a JSON object whose [choices] is a
    list, the first of which is an object whose [message] is an object
    whose [content] is a string, [ask_groq] returns that string stripped,
    whether it is one of the three labels or not; it draws no random number
    and prints nothing. *)
Theorem ask_groq_passes_through (o : outside) (question answer : pystr)
    (status_code : Z) (fields choice message : list (pystr * json))
    (rest : list json) (content : pystr) :
  post o = PostReturns status_code (Some (JObj fields)) ->
  ~ (400 <= status_code < 600) ->
  assoc (u "choices") fields = Some (JArr (JObj choice :: rest)) ->
  assoc (u "message") choice = Some (JObj message) ->
  assoc (u "content") message = Some (JStr content) ->
  ask_groq o question answer =
    (Ok (strip content), [Requests_post question answer]) /\
  trimmed (strip content).
Proof.
  intros Hpost Hst Hc Hm Hct. split; [|apply strip_trimmed].
  unfold ask_groq, ask_groq_try. rewrite Hpost. unfold raise_for_status.
  destruct ((400 <=? status_code) && (status_code <? 600)) eqn:Hguard.
  { apply andb_prop in Hguard as [?%Z.leb_le ?%Z.ltb_lt]. lia. }
  simpl. unfold completion_text. simpl. rewrite Hc. simpl.
  rewrite Hm. simpl. by rewrite Hct.
Qed.

Lemma ask_groq_passes_through_witness :
  ask_groq (endpoint_says 201 (u " Not sure 🤔 "))
    (u "Do you always tell the truth?") (u "yes") =
    (Ok (strip (u " Not sure 🤔 ")),
     [Requests_post (u "Do you always tell the truth?") (u "yes")]) /\
  trimmed (strip (u " Not sure 🤔 ")).
Proof.
  eapply (ask_groq_passes_through _ _ _ 201);
    [reflexivity | lia | reflexivity | reflexivity | reflexivity].
Defined.

(** X16.  The summary of any list of recorded answers has the three labels
    as the keys of [counts], in the order truthful, suspicious, lying; each
    count is the number of verdicts that contain the label, so it lies
    between 0 and the number of answers, and their sum is at most three
    times that number. *)
Theorem summary_counts_bounds (recorded : list answer_record) :
  exists c1 c2 c3 hp,
    summary recorded =
      JObj [(u "counts",
             JObj [(u "Truthful ✅", JInt c1); (u "Suspicious 😶", JInt c2);
                   (u "Lying 🤥", JInt c3)]);
            (u "honesty_percent", hp)] /\
    c1 = mentions TRUTHFUL recorded /\
    c2 = mentions SUSPICIOUS recorded /\
    c3 = mentions LYING recorded /\
    0 <= c1 <= len recorded /\ 0 <= c2 <= len recorded /\
    0 <= c3 <= len recorded /\ c1 + c2 + c3 <= 3 * len recorded.
Proof.
  pose proof (mentions_bounds TRUTHFUL recorded).
  pose proof (mentions_bounds SUSPICIOUS recorded).
  pose proof (mentions_bounds LYING recorded).
  eexists _, _, _, _. split; [apply summary_eq|].
  repeat (split; [done || lia|]). lia.
Qed.
